(** * Ashlee Bird: the simulation core of [game.js]

    A shallow embedding of the game loop of [src/game.js]: the phase
    machine ([handleInput]), the per-frame [update] with its bird physics,
    pipe spawning, scrolling, scoring and removal, and [checkCollisions].

    Numbers.  A JavaScript number is modelled by [JS.num]: an exact rational
    or [NaN].  Arithmetic is exact (binary64 rounding and the infinities are
    outside the model); [NaN] propagates through arithmetic and makes every
    comparison false, as in JavaScript.

    The outside world.  [Math.random()] is an external source: the draws an
    [update] call makes for its pipes are arguments of [update].  The
    canvas size is set by [resizeCanvas], stored in the game state.
    [localStorage.setItem] is recorded as a log of the values written.  The
    celebration particles and all drawing code hold no simulation state and
    are left out. *)

From Stdlib Require Import QArith Qminmax Qround Qabs ZArith List Sorted Bool Lia Lqa.
From Stdlib Require String.
Import ListNotations.

Open Scope Q_scope.

(** ** JavaScript numbers *)

Module JS.

Inductive num : Type :=
| NaN : num
| Num : Q -> num.

Definition of_Z (z : Z) : num := Num (inject_Z z).

Definition lift2 (f : Q -> Q -> Q) (a b : num) : num :=
  match a, b with
  | Num p, Num q => Num (f p q)
  | _, _ => NaN
  end.

Definition add : num -> num -> num := lift2 Qplus.
Definition sub : num -> num -> num := lift2 Qminus.
Definition mul : num -> num -> num := lift2 Qmult.

(** Every divisor in the program is a non-zero constant; a zero divisor
    (an infinity or NaN in JavaScript) is mapped to [NaN]. *)
Definition div (a b : num) : num :=
  match a, b with
  | Num p, Num q => if Qeq_bool q 0 then NaN else Num (p / q)
  | _, _ => NaN
  end.

Definition Qltb (p q : Q) : bool :=
  match p ?= q with
  | Lt => true
  | _ => false
  end.

(** [a < b] and [a > b]: false as soon as an operand is NaN. *)
Definition lt (a b : num) : bool :=
  match a, b with
  | Num p, Num q => Qltb p q
  | _, _ => false
  end.

Definition gt (a b : num) : bool := lt b a.

(** [a <= b], also false on NaN (so it is not the negation of [gt]). *)
Definition le (a b : num) : bool :=
  match a, b with
  | Num p, Num q => negb (Qltb q p)
  | _, _ => false
  end.

(** [Math.min] and [Math.max]: NaN as soon as an argument is NaN. *)
Definition min (a b : num) : num :=
  match a, b with
  | Num p, Num q => if Qltb q p then Num q else Num p
  | _, _ => NaN
  end.

Definition max (a b : num) : num :=
  match a, b with
  | Num p, Num q => if Qltb p q then Num q else Num p
  | _, _ => NaN
  end.

Definition isNaN (a : num) : bool :=
  match a with
  | NaN => true
  | Num _ => false
  end.

(** Numeric equality of two numbers, never true of NaN. *)
Definition eqb (a b : num) : bool :=
  match a, b with
  | Num p, Num q => Qeq_bool p q
  | _, _ => false
  end.

End JS.

Import JS.

Declare Scope js_scope.
Delimit Scope js_scope with js.
Bind Scope js_scope with num.
Infix "+" := add : js_scope.
Infix "-" := sub : js_scope.
Infix "*" := mul : js_scope.
Infix "/" := div : js_scope.
Infix "<?" := lt : js_scope.
Infix ">?" := gt (at level 70) : js_scope.

(** ** Game constants *)

Definition TARGET_FPS : num := of_Z 60.
Definition FRAME_TIME : num := (of_Z 1000 / TARGET_FPS)%js.
Definition GRAVITY : num := Num (55 # 100).
Definition FLAP_STRENGTH : num := Num (- (75 # 10)).
Definition MAX_FALL_SPEED : num := of_Z 10.
Definition PIPE_SPEED : num := Num (32 # 10).
Definition PIPE_GAP : num := of_Z 125.
Definition PIPE_WIDTH : num := of_Z 80.
Definition PIPE_SPACING : num := of_Z 200.
Definition BIRD_SIZE : num := of_Z 40.

(** ** Game state *)

Module Bird.
Record t : Type := mk {
  x : num;
  y : num;
  velocity : num;
  rotation : num
}.
End Bird.

Module Pipe.
Record t : Type := mk {
  x : num;
  topHeight : num;
  passed : bool
}.
End Pipe.

Inductive GameState : Type :=
| splash
| start
| playing
| gameover.

Definition GameState_eqb (a b : GameState) : bool :=
  match a, b with
  | splash, splash | start, start | playing, playing | gameover, gameover => true
  | _, _ => false
  end.

(** The module-level variables of [game.js].  [score] only ever holds 0 or
    the result of [score++], so it is an integer; [highScore] starts as
    whatever [localStorage] holds, read as a number.  [setItemLog] lists the
    values passed to [localStorage.setItem], the latest first. *)
Record Game : Type := mkGame {
  canvas_width : num;
  canvas_height : num;
  groundY : num;
  bird : Bird.t;
  pipes : list Pipe.t;
  score : Z;
  highScore : num;
  gameState : GameState;
  isNewHighScore : bool;
  setItemLog : list num
}.

Definition set_bird (b : Bird.t) (g : Game) : Game :=
  mkGame (canvas_width g) (canvas_height g) (groundY g) b (pipes g) (score g)
         (highScore g) (gameState g) (isNewHighScore g) (setItemLog g).

Definition set_pipes (ps : list Pipe.t) (g : Game) : Game :=
  mkGame (canvas_width g) (canvas_height g) (groundY g) (bird g) ps (score g)
         (highScore g) (gameState g) (isNewHighScore g) (setItemLog g).

Definition set_gameState (s : GameState) (g : Game) : Game :=
  mkGame (canvas_width g) (canvas_height g) (groundY g) (bird g) (pipes g)
         (score g) (highScore g) s (isNewHighScore g) (setItemLog g).

(** ** The operations of [game.js] *)

Open Scope js_scope.

(** [resizeCanvas], with the window's inner size as arguments. *)
Definition resizeCanvas (innerWidth innerHeight : num) (g : Game) : Game :=
  mkGame innerWidth innerHeight (innerHeight - of_Z 80) (bird g) (pipes g)
         (score g) (highScore g) (gameState g) (isNewHighScore g)
         (setItemLog g).

Definition resetGame (g : Game) : Game :=
  mkGame (canvas_width g) (canvas_height g) (groundY g)
         (Bird.mk (canvas_width g * Num (2 # 10)) (canvas_height g / of_Z 2)
                  (of_Z 0) (of_Z 0))
         [] 0%Z (highScore g) (gameState g) false (setItemLog g).

Definition flap (g : Game) : Game :=
  set_bird (Bird.mk (Bird.x (bird g)) (Bird.y (bird g)) FLAP_STRENGTH
                    (Bird.rotation (bird g))) g.

Definition handleInput (g : Game) : Game :=
  match gameState g with
  | splash => set_gameState start g
  | start => flap (set_gameState playing g)
  | playing => flap g
  | gameover => set_gameState start (resetGame g)
  end.

(** The gap-top height both spawn functions compute from a draw [r] of
    [Math.random()]. *)
Definition topHeight_of (r : num) (g : Game) : num :=
  let minHeight := of_Z 80 in
  let maxHeight := groundY g - PIPE_GAP - minHeight in
  r * (maxHeight - minHeight) + minHeight.

Definition spawnPipe (r : num) (g : Game) : Game :=
  set_pipes (pipes g ++ [Pipe.mk (canvas_width g) (topHeight_of r g) false]) g.

Definition spawnFirstPipe (r : num) (g : Game) : Game :=
  set_pipes (pipes g ++ [Pipe.mk (canvas_width g * Num (65 # 100))
                                 (topHeight_of r g) false]) g.

Definition gameOver (g : Game) : Game := set_gameState gameover g.

(** The loop over the pipes in [checkCollisions]: true when some pipe makes
    it call [gameOver]. *)
Fixpoint pipe_collision (birdLeft birdRight birdTop birdBottom : num)
         (ps : list Pipe.t) : bool :=
  match ps with
  | [] => false
  | pipe :: rest =>
      let pipeLeft := Pipe.x pipe in
      let pipeRight := Pipe.x pipe + PIPE_WIDTH in
      if (birdRight >? pipeLeft) && (birdLeft <? pipeRight) then
        if birdTop <? Pipe.topHeight pipe then true
        else if birdBottom >? Pipe.topHeight pipe + PIPE_GAP then true
        else pipe_collision birdLeft birdRight birdTop birdBottom rest
      else pipe_collision birdLeft birdRight birdTop birdBottom rest
  end.

Definition checkCollisions (g : Game) : Game :=
  let b := bird g in
  if (Bird.y b + BIRD_SIZE / of_Z 2 >? groundY g)
     || (Bird.y b - BIRD_SIZE / of_Z 2 <? of_Z 0)
  then gameOver g
  else
    let birdLeft := Bird.x b - BIRD_SIZE / of_Z 2 + of_Z 5 in
    let birdRight := Bird.x b + BIRD_SIZE / of_Z 2 - of_Z 5 in
    let birdTop := Bird.y b - BIRD_SIZE / of_Z 2 + of_Z 5 in
    let birdBottom := Bird.y b + BIRD_SIZE / of_Z 2 - of_Z 5 in
    if pipe_collision birdLeft birdRight birdTop birdBottom (pipes g)
    then gameOver g
    else g.

(** The time scale of a frame: [Math.min(deltaTime, 100) / FRAME_TIME]. *)
Definition dt_of (deltaTime : num) : num :=
  JS.min deltaTime (of_Z 100) / FRAME_TIME.

(** The bird physics of [update]: velocity, fall-speed clamp, position,
    rotation. *)
Definition update_bird (dt : num) (b : Bird.t) : Bird.t :=
  let v := Bird.velocity b + GRAVITY * dt in
  let v := if v >? MAX_FALL_SPEED then MAX_FALL_SPEED else v in
  let y := Bird.y b + v * dt in
  Bird.mk (Bird.x b) y v (JS.min (JS.max (v * of_Z 4) (of_Z (-25))) (of_Z 90)).

(** The body of [if (!pipes[i].passed && ...)]: one point, and the high
    score with its flag and its write to [localStorage]. *)
Definition score_point (g : Game) : Game :=
  let score' := (score g + 1)%Z in
  if of_Z score' >? highScore g then
    mkGame (canvas_width g) (canvas_height g) (groundY g) (bird g) (pipes g)
           score' (of_Z score') (gameState g) true
           (of_Z score' :: setItemLog g)
  else
    mkGame (canvas_width g) (canvas_height g) (groundY g) (bird g) (pipes g)
           score' (highScore g) (gameState g) (isNewHighScore g)
           (setItemLog g).

Definition move_pipe (dt : num) (p : Pipe.t) : Pipe.t :=
  Pipe.mk (Pipe.x p - PIPE_SPEED * dt) (Pipe.topHeight p) (Pipe.passed p).

(** Does the (moved) pipe score on this visit of the loop? *)
Definition crosses (birdx : num) (p : Pipe.t) : bool :=
  negb (Pipe.passed p) && (Pipe.x p + PIPE_WIDTH <? birdx).

Definition off_screen (p : Pipe.t) : bool :=
  Pipe.x p + PIPE_WIDTH <? of_Z 0.

Definition mark_passed (p : Pipe.t) : Pipe.t :=
  Pipe.mk (Pipe.x p) (Pipe.topHeight p) true.

(** The loop [for (let i = pipes.length - 1; i >= 0; i--)] of [update]: the
    last pipe is visited first, so the tail of the list is processed before
    its head.  It returns the pipes that are kept, in their order, and the
    game with its scoring fields updated ([pipes] is written back by
    [update]). *)
Fixpoint update_pipes (dt : num) (ps : list Pipe.t) (g : Game)
  : list Pipe.t * Game :=
  match ps with
  | [] => ([], g)
  | p :: rest =>
      let '(rest', g1) := update_pipes dt rest g in
      let p1 := move_pipe dt p in
      let '(p2, g2) :=
        if crosses (Bird.x (bird g1)) p1
        then (mark_passed p1, score_point g1)
        else (p1, g1) in
      if off_screen p2 then (rest', g2) else (p2 :: rest', g2)
  end.

(** [pipes.length === 0 || pipes[pipes.length - 1].x < canvas.width - PIPE_SPACING] *)
Definition wants_pipe (g : Game) : bool :=
  match rev (pipes g) with
  | [] => true
  | lastp :: _ => Pipe.x lastp <? canvas_width g - PIPE_SPACING
  end.

(** [update(deltaTime)]; [r1] is the draw of [spawnFirstPipe] and [r2] the
    draw of [spawnPipe], each used only if that function is called. *)
Definition update (deltaTime r1 r2 : num) (g : Game) : Game :=
  match gameState g with
  | playing =>
      let g := match pipes g with
               | [] => spawnFirstPipe r1 g
               | _ => g
               end in
      let dt := dt_of deltaTime in
      let g := set_bird (update_bird dt (bird g)) g in
      let g := if wants_pipe g then spawnPipe r2 g else g in
      let '(ps, g) := update_pipes dt (pipes g) g in
      let g := set_pipes ps g in
      checkCollisions g
  | _ => g
  end.

(** ** Runs of the game *)

(** What the page can do to the game: an input (click, touch, key), a frame
    of the game loop, a resize of the window. *)
Inductive event : Type :=
| Input
| Frame (deltaTime r1 r2 : num)
| Resize (innerWidth innerHeight : num).

Definition step (e : event) (g : Game) : Game :=
  match e with
  | Input => handleInput g
  | Frame d r1 r2 => update d r1 r2 g
  | Resize w h => resizeCanvas w h g
  end.

Definition run (es : list event) (g : Game) : Game :=
  fold_left (fun g e => step e g) es g.

(** [init]: the canvas takes the window's size, the game is reset and the
    phase is the splash screen; [hs] is the stored high score. *)
Definition init (innerWidth innerHeight hs : num) : Game :=
  resetGame (resizeCanvas innerWidth innerHeight
    (mkGame NaN NaN NaN (Bird.mk NaN NaN NaN NaN) [] 0%Z hs splash false [])).

Close Scope js_scope.

(** Runs whose frames carry an elapsed time that is a number, and runs
    whose frames carry a non-negative one. *)
Definition frame_is_number (e : event) : bool :=
  match e with
  | Frame d _ _ => negb (isNaN d)
  | _ => true
  end.

Definition frame_is_nonneg (e : event) : bool :=
  match e with
  | Frame d _ _ => le (of_Z 0) d
  | _ => true
  end.

(** The velocity is a number that is at most 10. *)
Definition velocity_le_max (g : Game) : Prop :=
  exists v : Q, Bird.velocity (bird g) = Num v /\ v <= 10.

(** The velocity is a number between -7.5 and 10. *)
Definition velocity_in_range (g : Game) : Prop :=
  exists v : Q, Bird.velocity (bird g) = Num v /\ - (75 # 10) <= v /\ v <= 10.

(** Ticks: frames whose elapsed time is a number between 0 and the 100 ms
    clamp; [elapsed] is that time and [total] its sum over a run. *)
Definition is_tick (e : event) : bool :=
  match e with
  | Frame (Num d) _ _ => Qle_bool 0 d && Qle_bool d 100
  | _ => false
  end.

Definition elapsed (e : event) : Q :=
  match e with
  | Frame (Num d) _ _ => d
  | _ => 0
  end.

Definition total (es : list event) : Q :=
  fold_right (fun e s => elapsed e + s) 0 es.

(** ** The pipe loop of [update], pipe by pipe *)

(** Does the loop score pipe [p] on a frame of time scale [dt], the bird
    being at [birdx]?  And what does it leave of [p]? *)
Definition scores (dt birdx : num) (p : Pipe.t) : bool :=
  crosses birdx (move_pipe dt p).

Definition visit (dt birdx : num) (p : Pipe.t) : Pipe.t :=
  if scores dt birdx p then mark_passed (move_pipe dt p) else move_pipe dt p.

(** The game at the point where [update] enters its loop over the pipes:
    first pipe spawned if there was none, bird moved, next pipe spawned if
    it was due. *)
Definition prepare (deltaTime r1 r2 : num) (g : Game) : Game :=
  let g := match pipes g with
           | [] => spawnFirstPipe r1 g
           | _ => g
           end in
  let g := set_bird (update_bird (dt_of deltaTime) (bird g)) g in
  if wants_pipe g then spawnPipe r2 g else g.

(** A round lasts until an input arrives in phase [gameover]. *)
Definition restarts (e : event) (g : Game) : bool :=
  match e with
  | Input => GameState_eqb (gameState g) gameover
  | _ => false
  end.

Fixpoint same_round (es : list event) (g : Game) : bool :=
  match es with
  | [] => true
  | e :: es' => negb (restarts e g) && same_round es' (step e g)
  end.

(** The scoring part of the game: score, high score, flag, log. *)
Definition scoring (g : Game) : Z * num * bool * list num :=
  (score g, highScore g, isNewHighScore g, setItemLog g).

(** [a] is not above [b]: the same value, or a smaller number. *)
Definition highScore_le (a b : num) : Prop :=
  a = b \/ lt a b = true.

(** The values written to [localStorage] by [k] points scored in a row
    from score [s] with high score [hs], the latest first: the scores
    [s + 1 .. s + k] that are above [hs]. *)
Definition writes (s : Z) (hs : num) (k : nat) : list num :=
  rev (filter (fun v => gt v hs)
              (map (fun j => of_Z (s + Z.of_nat j)) (seq 1 k))).

(** The frame on which the window, 3840 wide when the game was reset, has
    been made 600 wide before play starts. *)
Definition wide_launched : Game :=
  run [Input; Resize (of_Z 600) (of_Z 600); Input]
      (init (of_Z 3840) (of_Z 600) (of_Z 0)).

(** With a stored high score that is a non-negative number, the high score
    of a game stays one, and the score is not above it while the flag is
    down. *)
Definition score_below_highScore (g : Game) : Prop :=
  exists h : Q,
    highScore g = Num h /\ 0 <= h
    /\ (isNewHighScore g = false -> inject_Z (score g) <= h).

(** ** The hitboxes of [checkCollisions], named *)

(** The test [checkCollisions] makes on one pipe, for a bird box
    [birdLeft], [birdRight], [birdTop], [birdBottom]. *)
Definition hits (birdLeft birdRight birdTop birdBottom : num) (pipe : Pipe.t)
  : bool :=
  (gt birdRight (Pipe.x pipe) && lt birdLeft (add (Pipe.x pipe) PIPE_WIDTH))
  && (lt birdTop (Pipe.topHeight pipe)
      || gt birdBottom (add (Pipe.topHeight pipe) PIPE_GAP)).

(** The collision test as the specification words it: the boundary check
    on the same inset box as the pipe check.  It is compared with
    [checkCollisions] below; the program does not contain it. *)
Definition checkCollisions_inset (g : Game) : Game :=
  let b := bird g in
  let birdLeft := add (sub (Bird.x b) (div BIRD_SIZE (of_Z 2))) (of_Z 5) in
  let birdRight := sub (add (Bird.x b) (div BIRD_SIZE (of_Z 2))) (of_Z 5) in
  let birdTop := add (sub (Bird.y b) (div BIRD_SIZE (of_Z 2))) (of_Z 5) in
  let birdBottom := sub (add (Bird.y b) (div BIRD_SIZE (of_Z 2))) (of_Z 5) in
  if gt birdBottom (groundY g) || lt birdTop (of_Z 0) then gameOver g
  else if existsb (hits birdLeft birdRight birdTop birdBottom) (pipes g)
       then gameOver g
       else g.

(** ** Example games *)

(** The screen of the specification's scenario: 400 x 600, no stored high
    score. *)
Definition game0 : Game := init (of_Z 400) (of_Z 600) (of_Z 0).

Definition half : num := Num (1 # 2).

(** A round that is played until the bird hits the ground. *)
Definition crashed : Game :=
  run (Input :: Input :: repeat (Frame (of_Z 100) half half) 12) game0.

(** The game after two inputs and [n] frames of 16 ms. *)
Definition frames16 (n : nat) : Game :=
  run (Input :: Input :: repeat (Frame (of_Z 16) half half) n) game0.

(** The first playing state of the scenario: two inputs on [game0]. *)
Definition launched : Game := run [Input; Input] game0.

(** A screen only 300 high, as a phone held sideways, after two inputs. *)
Definition launched_low : Game := run [Input; Input] (init (of_Z 400) (of_Z 300) (of_Z 0)).

(** 96 ms of play after the launch, as one tick, as two ticks of 48 ms
    and as four ticks of 24 ms. *)
Definition one_tick : list event := [Frame (of_Z 96) half half].
Definition two_ticks : list event := repeat (Frame (of_Z 48) half half) 2.
Definition four_ticks : list event := repeat (Frame (of_Z 24) half half) 4.

(** ** Further vocabulary for runs *)

Definition is_input (e : event) : bool :=
  match e with
  | Input => true
  | _ => false
  end.

Definition is_frame (e : event) : bool :=
  match e with
  | Frame _ _ _ => true
  | _ => false
  end.

(** Everything of the game but the canvas size and the ground line. *)
Definition round_state (g : Game)
  : Bird.t * list Pipe.t * Z * num * GameState * bool * list num :=
  (bird g, pipes g, score g, highScore g, gameState g, isNewHighScore g,
   setItemLog g).

(** The two boundary tests and the pipe test of [checkCollisions], on the
    boxes it uses. *)
Definition below_ground (g : Game) : bool :=
  gt (add (Bird.y (bird g)) (div BIRD_SIZE (of_Z 2))) (groundY g).

Definition above_top (g : Game) : bool :=
  lt (sub (Bird.y (bird g)) (div BIRD_SIZE (of_Z 2))) (of_Z 0).

Definition hits_a_pipe (g : Game) : bool :=
  let b := bird g in
  let h := div BIRD_SIZE (of_Z 2) in
  existsb (hits (add (sub (Bird.x b) h) (of_Z 5))
                (sub (add (Bird.x b) h) (of_Z 5))
                (add (sub (Bird.y b) h) (of_Z 5))
                (sub (add (Bird.y b) h) (of_Z 5))) (pipes g).

(** The rotation is a number between -25 and 40. *)
Definition rotation_in_range (g : Game) : Prop :=
  exists r : Q, Bird.rotation (bird g) = Num r /\ -25 <= r /\ r <= 40.

(** A game lost to NaN: in play, the bird's height NaN, and at least one
    pipe, every pipe at a position NaN. *)
Definition lost_to_NaN (g : Game) : Prop :=
  gameState g = playing
  /\ Bird.y (bird g) = NaN
  /\ pipes g <> []
  /\ Forall (fun p => Pipe.x p = NaN) (pipes g).

(** The flag, when up, says that the high score is the score. *)
Definition flag_means_record (g : Game) : Prop :=
  isNewHighScore g = true -> highScore g = of_Z (score g).

(** The high score is the value last written to the store, or [hs] if
    nothing has been written. *)
Definition store_in_sync (hs : num) (g : Game) : Prop :=
  highScore g = hd hs (setItemLog g).

(** Pipe [p] is more than 199 to the left of pipe [q].  A pipe is spawned
    more than [PIPE_SPACING] (200) right of the last one; the bound kept
    here is a pixel less, the slack that keeps the statement true of the
    rounded arithmetic of the program, in which two pipes spawned a hair
    more than 200 apart can come to stand exactly 200 apart. *)
Definition gap_before (p q : Pipe.t) : Prop :=
  lt (add (Pipe.x p) (of_Z 199)) (Pipe.x q) = true.

(** The pipes stand in the list from left to right, each more than 199
    from the next. *)
Definition pipes_spaced (g : Game) : Prop :=
  StronglySorted gap_before (pipes g).

(** A round on a canvas 200 by 600, twelve frames into play: the bird has
    passed the first pipe, which the next frame takes off the screen. *)
Definition before_removal : Game :=
  run (Input :: Input
       :: repeat (Frame (of_Z 100) half half) 3
       ++ Input :: repeat (Frame (of_Z 100) half half) 4
       ++ Input :: repeat (Frame (of_Z 100) half half) 3)
      (init (of_Z 200) (of_Z 600) (of_Z 0)).

(** A round on a canvas 600 by 600 in which the bird, flapping twice,
    reaches the first pipe while two more pipes are behind it. *)
Definition at_the_first_pipe : Game :=
  run (Input :: Input
       :: repeat (Frame (of_Z 100) half half) 7
       ++ Input :: repeat (Frame (of_Z 100) half half) 3
       ++ Input :: repeat (Frame (of_Z 100) half half) 4)
      (init (of_Z 600) (of_Z 600) (of_Z 0)).

(** The horizontal part of the pipe test of [checkCollisions]: does the
    bird's inset box overlap pipe [p] horizontally? *)
Definition overlaps (g : Game) (p : Pipe.t) : bool :=
  let h := div BIRD_SIZE (of_Z 2) in
  gt (sub (add (Bird.x (bird g)) h) (of_Z 5)) (Pipe.x p)
  && lt (add (sub (Bird.x (bird g)) h) (of_Z 5)) (add (Pipe.x p) PIPE_WIDTH).

(** ** The animation loop *)

(** The page: the game and [lastTime], the timestamp of the previous call
    of [gameLoop].  A timestamp that is [undefined] (the call [gameLoop()]
    at the end of [init]) is NaN here, which is what it is in the
    subtraction and as the next [lastTime]. *)
Record Page : Type := mkPage {
  game : Game;
  lastTime : num
}.

(** [gameLoop(timestamp)]; [draw] and [requestAnimationFrame] change no
    state. *)
Definition gameLoop (timestamp r1 r2 : num) (pg : Page) : Page :=
  let deltaTime := sub timestamp (lastTime pg) in
  mkPage (update deltaTime r1 r2 (game pg)) timestamp.

(** The page when [init] returns: the game as [init] leaves it, after the
    call [gameLoop()] that ends [init]. *)
Definition init_page (innerWidth innerHeight hs : num) : Page :=
  gameLoop NaN NaN NaN (mkPage (init innerWidth innerHeight hs) (of_Z 0)).

(** What happens to the page: an input, an animation frame with its
    timestamp, a resize of the window. *)
Inductive page_event : Type :=
| PInput
| PFrame (timestamp r1 r2 : num)
| PResize (innerWidth innerHeight : num).

Definition page_step (e : page_event) (pg : Page) : Page :=
  match e with
  | PInput => mkPage (handleInput (game pg)) (lastTime pg)
  | PFrame ts r1 r2 => gameLoop ts r1 r2 pg
  | PResize w h => mkPage (resizeCanvas w h (game pg)) (lastTime pg)
  end.

Definition page_run (es : list page_event) (pg : Page) : Page :=
  fold_left (fun pg e => page_step e pg) es pg.

(** The timestamps of the frames are numbers that never go back, from
    [last] on. *)
Fixpoint well_timed (last : Q) (es : list page_event) : bool :=
  match es with
  | [] => true
  | PFrame (Num t) _ _ :: es' => Qle_bool last t && well_timed t es'
  | PFrame NaN _ _ :: _ => false
  | _ :: es' => well_timed last es'
  end.

(** ** The celebration *)

(** The eight colours of [spawnCelebration]. *)
Module Palette.
Import Stdlib.Strings.String.
Local Open Scope string_scope.

Definition colors : list string :=
  ["#FFD700"; "#FF6B6B"; "#4ECDC4"; "#45B7D1";
   "#96CEB4"; "#FFEAA7"; "#DDA0DD"; "#98D8C8"].

End Palette.

Module Particle.
Record t : Type := mk {
  x : num;
  y : num;
  vx : num;
  vy : num;
  color : option String.string;
  size : num;
  rotation : num;
  rotationSpeed : num
}.
End Particle.

(** [Math.floor]. *)
Definition floor (a : num) : num :=
  match a with
  | NaN => NaN
  | Num q => of_Z (Qfloor q)
  end.

(** [arr[i]] for a number [i]: the element when [i] is an integer within
    the array, [undefined] ([None]) otherwise. *)
Definition index (arr : list String.string) (i : num) : option String.string :=
  match i with
  | NaN => None
  | Num q =>
      if Qeq_bool q (inject_Z (Qfloor q)) && (0 <=? Qfloor q)%Z
      then nth_error arr (Z.to_nat (Qfloor q))
      else None
  end.

(** The particle pushed by round [i] of the loop of [spawnCelebration];
    [rnd k] is the [k]-th value [Math.random()] returns to this call, seven
    of them to a particle, in the order of the object literal. *)
Definition new_particle (w h : num) (rnd : nat -> num) (i : nat) : Particle.t :=
  let r := fun k => rnd (7 * i + k)%nat in
  Particle.mk
    (add (div w (of_Z 2)) (mul (sub (r 0%nat) (Num (5 # 10))) (of_Z 200)))
    (div h (of_Z 3))
    (mul (sub (r 1%nat) (Num (5 # 10))) (of_Z 10))
    (sub (mul (r 2%nat) (of_Z (-8))) (of_Z 2))
    (index Palette.colors (floor (mul (r 3%nat) (of_Z 8))))
    (add (mul (r 4%nat) (of_Z 8)) (of_Z 4))
    (mul (r 5%nat) (of_Z 360))
    (mul (sub (r 6%nat) (Num (5 # 10))) (of_Z 15)).

(** [spawnCelebration]: fifty rounds of push. *)
Definition spawnCelebration (w h : num) (rnd : nat -> num)
           (ps : list Particle.t) : list Particle.t :=
  fold_left (fun ps i => ps ++ [new_particle w h rnd i]) (seq 0 50) ps.

(** What the loop of [updateCelebration] does to one particle. *)
Definition move_particle (p : Particle.t) : Particle.t :=
  Particle.mk (add (Particle.x p) (Particle.vx p))
              (add (Particle.y p) (Particle.vy p))
              (Particle.vx p)
              (add (Particle.vy p) (Num (3 # 10)))
              (Particle.color p)
              (Particle.size p)
              (add (Particle.rotation p) (Particle.rotationSpeed p))
              (Particle.rotationSpeed p).

(** [updateCelebration], for a canvas of height [h]: as in the loop over
    the pipes, the last particle is visited first. *)
Fixpoint updateCelebration (h : num) (ps : list Particle.t) : list Particle.t :=
  match ps with
  | [] => []
  | p :: rest =>
      let rest' := updateCelebration h rest in
      let p' := move_particle p in
      if gt (Particle.y p') (add h (of_Z 50)) then rest' else p' :: rest'
  end.

(** The game with its particles.  [update] calls [updateCelebration] first
    and [spawnCelebration] at the point where it raises the flag, which is
    the only place that raises it; [resetGame] empties the particles. *)
Record Scene : Type := mkScene {
  scene_game : Game;
  celebrationParticles : list Particle.t
}.

Definition scene_update (d r1 r2 : num) (rnd : nat -> num) (sc : Scene) : Scene :=
  let g := scene_game sc in
  let ps := updateCelebration (canvas_height g) (celebrationParticles sc) in
  let g' := update d r1 r2 g in
  mkScene g'
          (if negb (isNewHighScore g) && isNewHighScore g'
           then spawnCelebration (canvas_width g) (canvas_height g) rnd ps
           else ps).

Definition scene_input (sc : Scene) : Scene :=
  mkScene (handleInput (scene_game sc))
          (match gameState (scene_game sc) with
           | gameover => []
           | _ => celebrationParticles sc
           end).

Inductive scene_event : Type :=
| SInput
| SFrame (deltaTime r1 r2 : num) (rnd : nat -> num)
| SResize (innerWidth innerHeight : num).

Definition scene_step (e : scene_event) (sc : Scene) : Scene :=
  match e with
  | SInput => scene_input sc
  | SFrame d r1 r2 rnd => scene_update d r1 r2 rnd sc
  | SResize w h =>
      mkScene (resizeCanvas w h (scene_game sc)) (celebrationParticles sc)
  end.

Definition scene_run (es : list scene_event) (sc : Scene) : Scene :=
  fold_left (fun sc e => scene_step e sc) es sc.

Definition init_scene (innerWidth innerHeight hs : num) : Scene :=
  mkScene (init innerWidth innerHeight hs) [].

(** The game event behind a scene event. *)
Definition game_event (e : scene_event) : event :=
  match e with
  | SInput => Input
  | SFrame d r1 r2 _ => Frame d r1 r2
  | SResize w h => Resize w h
  end.

(** No confetti without a record, and never more than one burst. *)
Definition confetti_in_check (sc : Scene) : Prop :=
  (isNewHighScore (scene_game sc) = false -> celebrationParticles sc = [])
  /\ (length (celebrationParticles sc) <= 50)%nat.

(** A particle as [spawnCelebration] makes them on a canvas [W] by [H]:
    at most 100 from the middle, at [H / 3] from the top, thrown upwards,
    of size 4 to 12, in a colour of the palette.  The bounds are closed:
    they are the ones the rounded arithmetic of the program keeps too. *)
Definition fresh_particle (W H : Q) (p : Particle.t) : Prop :=
  exists x vx vy sz : Q, exists c : String.string,
    Particle.x p = Num x
    /\ Particle.y p = div (Num H) (of_Z 3)
    /\ Particle.vx p = Num vx /\ Particle.vy p = Num vy
    /\ Particle.size p = Num sz /\ Particle.color p = Some c
    /\ W / 2 - 100 <= x /\ x <= W / 2 + 100
    /\ -5 <= vx /\ vx <= 5
    /\ -10 <= vy /\ vy <= -2
    /\ 4 <= sz /\ sz <= 12
    /\ In c Palette.colors.

(** A particle whose height and vertical velocity are numbers. *)
Definition falling (p : Particle.t) : Prop :=
  exists y vy : Q, Particle.y p = Num y /\ Particle.vy p = Num vy.

(** A natural number as a rational. *)
Definition nQ (n : nat) : Q := inject_Z (Z.of_nat n).

(** * Properties *)

(** ** Facts about numbers *)

Section NumFacts.

Lemma Qltb_true (p q : Q) : Qltb p q = true <-> p < q.
Proof.
  unfold Qltb. rewrite Qlt_alt.
  destruct (p ?= q); split; intros H; congruence.
Qed.

Lemma Qltb_false (p q : Q) : Qltb p q = false <-> q <= p.
Proof.
  split; intros H.
  - apply Qnot_lt_le. intros L. apply Qltb_true in L. congruence.
  - destruct (Qltb p q) eqn:E; [ | reflexivity ].
    apply Qltb_true in E. exfalso. apply (Qlt_not_le _ _ E H).
Qed.

Lemma lt_Num (p q : Q) : lt (Num p) (Num q) = true <-> p < q.
Proof. apply Qltb_true. Qed.

Lemma le_Num (p q : Q) : le (Num p) (Num q) = true <-> p <= q.
Proof.
  simpl. rewrite negb_true_iff. apply Qltb_false.
Qed.

(** The time scale of a frame whose elapsed time is a number. *)
Lemma dt_of_Num (d : Q) :
  dt_of (Num d) = Num ((if Qltb 100 d then 100 else d) / (1000 / 60)).
Proof.
  unfold dt_of, JS.min, of_Z. simpl inject_Z.
  change (inject_Z 100) with 100.
  destruct (Qltb 100 d); reflexivity.
Qed.

End NumFacts.

(** ** Phase machine *)

Lemma update_not_playing (d r1 r2 : num) (g : Game) :
  gameState g <> playing -> update d r1 r2 g = g.
Proof.
  unfold update. destruct (gameState g); congruence.
Qed.

(** C8.  An input in phase [gameover] resets the whole round: the bird is
    back at its initial position with velocity 0, the pipe list is empty,
    the score is 0 and the new-high-score flag is false (the values [init]
    gives on the same canvas); the high score is kept; the phase is [start],
    not [playing]: a frame leaves the game as it is, and only one more input
    starts play. *)
Theorem C8_restart_resets_round (g : Game) :
  gameState g = gameover ->
  let g' := handleInput g in
  bird g' = Bird.mk (mul (canvas_width g) (Num (2 # 10)))
                    (div (canvas_height g) (of_Z 2)) (of_Z 0) (of_Z 0)
  /\ bird g' = bird (resetGame (resizeCanvas (canvas_width g) (canvas_height g) g))
  /\ pipes g' = []
  /\ score g' = 0%Z
  /\ isNewHighScore g' = false
  /\ highScore g' = highScore g
  /\ gameState g' = start
  /\ (forall d r1 r2, update d r1 r2 g' = g')
  /\ gameState (handleInput g') = playing.
Proof.
  intros H.
  assert (E : handleInput g = set_gameState start (resetGame g))
    by (unfold handleInput; rewrite H; reflexivity).
  cbv zeta. rewrite E.
  repeat split; reflexivity.
Qed.

Lemma C8_restart_resets_round_witness :
  let g' := handleInput crashed in
  bird g' = Bird.mk (mul (canvas_width crashed) (Num (2 # 10)))
                    (div (canvas_height crashed) (of_Z 2)) (of_Z 0) (of_Z 0)
  /\ bird g' = bird (resetGame (resizeCanvas (canvas_width crashed)
                                             (canvas_height crashed) crashed))
  /\ pipes g' = []
  /\ score g' = 0%Z
  /\ isNewHighScore g' = false
  /\ highScore g' = highScore crashed
  /\ gameState g' = start
  /\ (forall d r1 r2, update d r1 r2 g' = g')
  /\ gameState (handleInput g') = playing.
Proof.
  apply (C8_restart_resets_round crashed). vm_compute. reflexivity.
Defined.

(** ** Collision detection *)

Lemma pipe_collision_existsb (l r t b : num) (ps : list Pipe.t) :
  pipe_collision l r t b ps = existsb (hits l r t b) ps.
Proof.
  induction ps as [ | p ps IH ]; [ reflexivity | ].
  simpl. unfold hits at 1. rewrite IH.
  destruct (gt r (Pipe.x p) && lt l (add (Pipe.x p) PIPE_WIDTH));
    [ | reflexivity ].
  destruct (lt t (Pipe.topHeight p)); [ reflexivity | ].
  destruct (gt b (add (Pipe.topHeight p) PIPE_GAP)); reflexivity.
Qed.

(** C2, as the code has it.  [checkCollisions] ends the round exactly when
    the bird's full vertical extent (centre plus or minus [BIRD_SIZE / 2],
    no inset) passes the ground line or the top of the screen, or when the
    box inset by 5 on all four sides overlaps a pipe horizontally and
    reaches above its gap top or below gap top + [PIPE_GAP]; otherwise the
    game is unchanged.  The inset is applied in the pipe check only. *)
Theorem C2_boundary_full_pipes_inset (g : Game) :
  let b := bird g in
  let h := div BIRD_SIZE (of_Z 2) in
  let inset := of_Z 5 in
  checkCollisions g =
  if (gt (add (Bird.y b) h) (groundY g) || lt (sub (Bird.y b) h) (of_Z 0))
     || existsb (hits (add (sub (Bird.x b) h) inset)
                      (sub (add (Bird.x b) h) inset)
                      (add (sub (Bird.y b) h) inset)
                      (sub (add (Bird.y b) h) inset)) (pipes g)
  then gameOver g
  else g.
Proof.
  cbv zeta. unfold checkCollisions.
  destruct (_ || _); [ reflexivity | ].
  rewrite pipe_collision_existsb. reflexivity.
Qed.

(** C2 fails as stated: after 48 frames of 16 ms the scenario's bird is
    still in play; the 49th frame puts its centre at about 500.36 with the
    ground at 520 and the only pipe well ahead.  The full box (bottom at
    520.36) is below the ground line, so [update] ends the round, while the
    inset box (bottom at 515.36) is not and hits nothing. *)
Lemma C2_counterexample :
  let g := set_gameState playing (frames16 49) in
  gameState (frames16 48) = playing
  /\ update (of_Z 16) half half (frames16 48) = checkCollisions g
  /\ gameState (checkCollisions g) = gameover
  /\ checkCollisions_inset g = g.
Proof.
  vm_compute. repeat split; reflexivity.
Qed.

(** ** The elapsed time of a frame *)

Lemma dt_of_above (d : num) : lt (of_Z 100) d = true -> dt_of d = dt_of (of_Z 100).
Proof.
  destruct d as [ | q ]; [ discriminate | ].
  unfold dt_of, JS.min, lt, of_Z. intros H. rewrite H.
  replace (Qltb (inject_Z 100) (inject_Z 100)) with false by reflexivity.
  reflexivity.
Qed.

(** C3 fails as stated: in play, a frame with elapsed time -16 does not
    act as a frame with elapsed time 0: the bird's velocity drops below the
    flap strength and the pipe moves to the right.  A frame with elapsed
    time NaN makes the bird's velocity and position and the pipe's position
    NaN. *)
Lemma C3_counterexample :
  let zero := update (of_Z 0) half half launched in
  let neg := update (of_Z (-16)) half half launched in
  let nan := update NaN half half launched in
  gameState launched = playing
  /\ JS.eqb (Bird.velocity (bird zero)) FLAP_STRENGTH = true
  /\ lt (Bird.velocity (bird neg)) FLAP_STRENGTH = true
  /\ lt (Bird.y (bird zero)) (Bird.y (bird neg)) = true
  /\ map (fun p => JS.eqb (Pipe.x p) (Num 260)) (pipes zero) = [true]
  /\ existsb (fun p => lt (Num 260) (Pipe.x p)) (pipes neg) = true
  /\ Bird.velocity (bird nan) = NaN
  /\ Bird.y (bird nan) = NaN
  /\ map Pipe.x (pipes nan) = [NaN].
Proof.
  vm_compute. repeat split; reflexivity.
Qed.

(** ** Spawning pipes *)

Lemma topHeight_of_Num (q gy : Q) (g : Game) :
  groundY g = Num gy ->
  topHeight_of (Num q) g = Num (q * (gy - 125 - 80 - 80) + 80).
Proof.
  intros H. unfold topHeight_of. rewrite H. reflexivity.
Qed.

(** C9, as the code has it.  On a screen whose ground line is at 285 or
    lower (a canvas at least 365 high), for every draw [q] of the random
    source in [0, 1), the pipe that [spawnPipe] or [spawnFirstPipe] appends
    has its gap top [t] in [80, groundY - PIPE_GAP - 80], with
    [groundY = canvas.height - 80]: at least 80 of solid pipe above the gap
    and 80 below it. *)
Theorem C9_gap_top_in_range (g : Game) (gy q : Q) :
  groundY g = Num gy ->
  285 <= gy ->
  0 <= q -> q < 1 ->
  exists t : Q,
    80 <= t /\ t <= gy - 125 - 80
    /\ pipes (spawnPipe (Num q) g)
       = pipes g ++ [Pipe.mk (canvas_width g) (Num t) false]
    /\ pipes (spawnFirstPipe (Num q) g)
       = pipes g ++ [Pipe.mk (mul (canvas_width g) (Num (65 # 100))) (Num t) false].
Proof.
  intros Hg Hgy Hq0 Hq1.
  exists (q * (gy - 125 - 80 - 80) + 80).
  assert (Hm : 0 <= gy - 125 - 80 - 80) by lra.
  pose proof (Qmult_le_0_compat _ _ Hq0 Hm) as Hlo.
  assert (Hhi : q * (gy - 125 - 80 - 80) <= 1 * (gy - 125 - 80 - 80)).
  { apply Qmult_le_compat_r; [ apply Qlt_le_weak; exact Hq1 | exact Hm ]. }
  split; [ lra | ].
  split; [ lra | ].
  unfold spawnPipe, spawnFirstPipe. simpl.
  rewrite (topHeight_of_Num q gy g Hg). split; reflexivity.
Qed.

Lemma C9_gap_top_in_range_witness :
  exists t : Q,
    80 <= t /\ t <= 520 - 125 - 80
    /\ pipes (spawnPipe half launched)
       = pipes launched ++ [Pipe.mk (canvas_width launched) (Num t) false]
    /\ pipes (spawnFirstPipe half launched)
       = pipes launched
         ++ [Pipe.mk (mul (canvas_width launched) (Num (65 # 100))) (Num t) false].
Proof.
  apply (C9_gap_top_in_range launched 520 (1 # 2)).
  - reflexivity.
  - vm_compute. discriminate.
  - vm_compute. discriminate.
  - reflexivity.
Defined.

(** C9 fails as stated on a low screen: with the canvas 300 high the ground
    line is at 220 and the range is [80, 15]; the first frame of play spawns
    a pipe whose gap top is 47.5: over the upper bound 15 and under the
    minimum margin 80. *)
Lemma C9_counterexample :
  let g := update (of_Z 16) half half launched_low in
  gameState launched_low = playing
  /\ JS.eqb (groundY launched_low) (of_Z 220) = true
  /\ map Pipe.topHeight (pipes g) = [topHeight_of half launched_low]
  /\ JS.eqb (topHeight_of half launched_low) (Num (475 # 10)) = true
  /\ le (topHeight_of half launched_low)
        (sub (sub (groundY launched_low) PIPE_GAP) (of_Z 80)) = false
  /\ le (of_Z 80) (topHeight_of half launched_low) = false.
Proof.
  vm_compute. repeat split; reflexivity.
Qed.

(** ** What [update] leaves alone *)

Lemma score_point_frame (g : Game) :
  bird (score_point g) = bird g
  /\ gameState (score_point g) = gameState g
  /\ canvas_width (score_point g) = canvas_width g
  /\ canvas_height (score_point g) = canvas_height g
  /\ groundY (score_point g) = groundY g.
Proof.
  unfold score_point. destruct (gt _ _); repeat split; reflexivity.
Qed.

Lemma update_pipes_frame (dt : num) (ps : list Pipe.t) (g : Game) :
  let g' := snd (update_pipes dt ps g) in
  bird g' = bird g
  /\ gameState g' = gameState g
  /\ canvas_width g' = canvas_width g
  /\ canvas_height g' = canvas_height g
  /\ groundY g' = groundY g.
Proof.
  induction ps as [ | p ps IH ]; simpl; [ repeat split; reflexivity | ].
  destruct (update_pipes dt ps g) as [rest' g1]. simpl in IH.
  destruct IH as (Hb & Hs & Hw & Hh & Hy).
  destruct (crosses (Bird.x (bird g1)) (move_pipe dt p)).
  - destruct (score_point_frame g1) as (Hb' & Hs' & Hw' & Hh' & Hy').
    destruct (off_screen _); simpl; repeat split; congruence.
  - destruct (off_screen _); simpl; repeat split; congruence.
Qed.

Lemma checkCollisions_bird (g : Game) : bird (checkCollisions g) = bird g.
Proof.
  unfold checkCollisions.
  destruct (_ || _); [ reflexivity | ].
  destruct (pipe_collision _ _ _ _ _); reflexivity.
Qed.

(** In play, [update] moves the bird by [update_bird] and does nothing else
    to it. *)
Lemma update_bird_playing (d r1 r2 : num) (g : Game) :
  gameState g = playing ->
  bird (update d r1 r2 g) = update_bird (dt_of d) (bird g).
Proof.
  intros H. unfold update. rewrite H.
  set (g1 := match pipes g with [] => spawnFirstPipe r1 g | _ => g end).
  assert (Hb1 : bird g1 = bird g) by (subst g1; destruct (pipes g); reflexivity).
  set (g2 := set_bird (update_bird (dt_of d) (bird g1)) g1).
  set (g3 := if wants_pipe g2 then spawnPipe r2 g2 else g2).
  assert (Hb3 : bird g3 = update_bird (dt_of d) (bird g))
    by (subst g3 g2; rewrite <- Hb1; destruct (wants_pipe _); reflexivity).
  pose proof (update_pipes_frame (dt_of d) (pipes g3) g3) as F.
  destruct (update_pipes (dt_of d) (pipes g3) g3) as [ps g4].
  simpl in F. destruct F as (Hb4 & _).
  rewrite checkCollisions_bird. simpl. congruence.
Qed.

Lemma bird_update_cases (d r1 r2 : num) (g : Game) :
  bird (update d r1 r2 g) = bird g
  \/ bird (update d r1 r2 g) = update_bird (dt_of d) (bird g).
Proof.
  destruct (gameState g) eqn:E;
    try (left; rewrite update_not_playing; [ reflexivity | congruence ]).
  right. apply update_bird_playing. exact E.
Qed.

Lemma run_invariant (P : Game -> Prop) (ok : event -> bool) :
  (forall e g, ok e = true -> P g -> P (step e g)) ->
  forall es g, forallb ok es = true -> P g -> P (run es g).
Proof.
  intros Hstep es. induction es as [ | e es IH ]; intros g Hok Hg.
  - exact Hg.
  - simpl in Hok. apply andb_true_iff in Hok. destruct Hok as [He Hes].
    simpl. apply IH; [ exact Hes | ]. apply Hstep; assumption.
Qed.

(** ** The bird's velocity *)

Lemma update_bird_velocity_Num (a t : Q) (b : Bird.t) :
  Bird.velocity b = Num a ->
  Bird.velocity (update_bird (Num t) b)
  = Num (if Qltb 10 (a + (55 # 100) * t) then 10 else a + (55 # 100) * t).
Proof.
  intros H. unfold update_bird. rewrite H. simpl.
  change (inject_Z 10) with 10.
  destruct (Qltb 10 (a + (55 # 100) * t)); reflexivity.
Qed.

Lemma update_bird_not_over (dt : num) (b : Bird.t) :
  gt (Bird.velocity (update_bird dt b)) MAX_FALL_SPEED = false.
Proof.
  unfold update_bird. cbn [Bird.velocity].
  destruct (gt (add (Bird.velocity b) (mul GRAVITY dt)) MAX_FALL_SPEED) eqn:E.
  - reflexivity.
  - exact E.
Qed.

Lemma dt_of_number (d : num) :
  isNaN d = false -> exists t : Q, dt_of d = Num t.
Proof.
  destruct d as [ | q ]; [ discriminate | ].
  intros _. rewrite dt_of_Num. eexists. reflexivity.
Qed.

Lemma dt_of_nonneg (d : num) :
  le (of_Z 0) d = true -> exists t : Q, dt_of d = Num t /\ 0 <= t.
Proof.
  destruct d as [ | q ]; [ discriminate | ].
  intros H. apply le_Num in H. change (inject_Z 0) with 0 in H.
  rewrite dt_of_Num. eexists. split; [ reflexivity | ].
  assert (K : forall x : Q, 0 <= x -> 0 <= x / (1000 / 60)).
  { intros x Hx. setoid_replace (x / (1000 / 60)) with (x * (6 # 100)) by field.
    lra. }
  apply K. destruct (Qltb 100 q); lra.
Qed.

Lemma handleInput_velocity (g : Game) :
  Bird.velocity (bird (handleInput g)) = Bird.velocity (bird g)
  \/ Bird.velocity (bird (handleInput g)) = FLAP_STRENGTH
  \/ Bird.velocity (bird (handleInput g)) = of_Z 0.
Proof.
  unfold handleInput. destruct (gameState g); simpl; auto.
Qed.

Lemma step_velocity_le_max (e : event) (g : Game) :
  frame_is_number e = true -> velocity_le_max g -> velocity_le_max (step e g).
Proof.
  intros He (v & Hv & Hle). destruct e as [ | d r1 r2 | w h ]; simpl.
  - destruct (handleInput_velocity g) as [H | [H | H]]; rewrite ?Hv in H.
    + exists v. split; assumption.
    + exists (- (75 # 10)). split; [ exact H | lra ].
    + exists 0. split; [ exact H | lra ].
  - destruct (bird_update_cases d r1 r2 g) as [H | H]; unfold velocity_le_max; rewrite H.
    + exists v. split; assumption.
    + simpl in He. apply negb_true_iff in He.
      destruct (dt_of_number d He) as (t & Ht). rewrite Ht.
      rewrite (update_bird_velocity_Num v t _ Hv).
      eexists. split; [ reflexivity | ].
      destruct (Qltb 10 (v + (55 # 100) * t)) eqn:E; [ lra | ].
      apply Qltb_false in E. exact E.
  - exists v. split; assumption.
Qed.

Lemma step_velocity_in_range (e : event) (g : Game) :
  frame_is_nonneg e = true -> velocity_in_range g -> velocity_in_range (step e g).
Proof.
  intros He (v & Hv & Hlo & Hhi). destruct e as [ | d r1 r2 | w h ]; simpl.
  - destruct (handleInput_velocity g) as [H | [H | H]]; rewrite ?Hv in H.
    + exists v. repeat split; assumption.
    + exists (- (75 # 10)). repeat split; [ exact H | lra | lra ].
    + exists 0. repeat split; [ exact H | lra | lra ].
  - destruct (bird_update_cases d r1 r2 g) as [H | H]; unfold velocity_in_range; rewrite H.
    + exists v. repeat split; assumption.
    + simpl in He.
      destruct (dt_of_nonneg d He) as (t & Ht & Ht0). rewrite Ht.
      rewrite (update_bird_velocity_Num v t _ Hv).
      eexists. split; [ reflexivity | ].
      destruct (Qltb 10 (v + (55 # 100) * t)) eqn:E; [ lra | ].
      apply Qltb_false in E. split; [ lra | exact E ].
  - exists v. repeat split; assumption.
Qed.


Lemma forallb_any (es : list event) : forallb (fun _ => true) es = true.
Proof. induction es; simpl; auto. Qed.

Lemma run_snoc (es : list event) (e : event) (g : Game) :
  run (es ++ [e]) g = step e (run es g).
Proof. unfold run. rewrite fold_left_app. reflexivity. Qed.

Lemma run_never_over (es : list event) (g : Game) :
  gt (Bird.velocity (bird g)) MAX_FALL_SPEED = false ->
  gt (Bird.velocity (bird (run es g))) MAX_FALL_SPEED = false.
Proof.
  intros Hg.
  apply (run_invariant
           (fun g => gt (Bird.velocity (bird g)) MAX_FALL_SPEED = false)
           (fun _ => true)); [ | apply forallb_any | exact Hg ].
  clear. intros e g _ Hg. destruct e as [ | d r1 r2 | w h ]; simpl.
  - destruct (handleInput_velocity g) as [H | [H | H]]; rewrite H;
      [ exact Hg | reflexivity | reflexivity ].
  - destruct (bird_update_cases d r1 r2 g) as [H | H]; rewrite H;
      [ exact Hg | apply update_bird_not_over ].
  - exact Hg.
Qed.

(** C4, as the code has it.  In every game, after every call of [update]
    the velocity is never greater than [MAX_FALL_SPEED], whatever the
    elapsed times were; and when the elapsed times supplied so far are
    numbers (of any sign and size, NaN apart), the velocity is a number and
    is less than or equal to [MAX_FALL_SPEED] (10). *)
Theorem C4_velocity_at_most_max (w h hs : num) (es : list event) (d r1 r2 : num) :
  let g := update d r1 r2 (run es (init w h hs)) in
  gt (Bird.velocity (bird g)) MAX_FALL_SPEED = false
  /\ (forallb frame_is_number es = true -> isNaN d = false ->
      exists v : Q, Bird.velocity (bird g) = Num v /\ v <= 10).
Proof.
  cbv zeta. change (update d r1 r2 (run es (init w h hs)))
    with (step (Frame d r1 r2) (run es (init w h hs))).
  rewrite <- run_snoc. split.
  - apply run_never_over. reflexivity.
  - intros Hes Hd.
    apply (run_invariant velocity_le_max frame_is_number step_velocity_le_max).
    + rewrite forallb_app, Hes. simpl. rewrite Hd. reflexivity.
    + exists 0. split; [ reflexivity | lra ].
Qed.

Lemma C4_velocity_at_most_max_witness :
  exists v : Q,
    Bird.velocity (bird (update (of_Z (-16)) half half
                                (run [Input; Input] (init (of_Z 400) (of_Z 600) (of_Z 0)))))
    = Num v /\ v <= 10.
Proof.
  apply (proj2 (C4_velocity_at_most_max (of_Z 400) (of_Z 600) (of_Z 0)
                  [Input; Input] (of_Z (-16)) half half)); reflexivity.
Defined.

(** C4 fails as stated when the elapsed time is NaN: in play, a frame with
    elapsed time NaN leaves the velocity NaN, and NaN is not less than or
    equal to 10. *)
Lemma C4_counterexample :
  let g := update NaN half half launched in
  gameState launched = playing
  /\ Bird.velocity (bird g) = NaN
  /\ le (Bird.velocity (bird g)) MAX_FALL_SPEED = false.
Proof.
  vm_compute. repeat split; reflexivity.
Qed.

(** C10.  When every elapsed time passed to [update] is non-negative, the
    velocity is, in every state the game reaches, a number between
    [FLAP_STRENGTH] (-7.5) and [MAX_FALL_SPEED] (10): it starts at 0, an
    input that flaps sets it to exactly [FLAP_STRENGTH], and a frame with a
    non-negative elapsed time never lowers it. *)
Theorem C10_velocity_in_range (w h hs : num) (es : list event) :
  forallb frame_is_nonneg es = true ->
  let g := run es (init w h hs) in
  velocity_in_range g
  /\ Bird.velocity (bird (init w h hs)) = of_Z 0
  /\ (gameState g = start \/ gameState g = playing ->
      Bird.velocity (bird (handleInput g)) = FLAP_STRENGTH)
  /\ (forall d r1 r2, le (of_Z 0) d = true ->
      exists v v' : Q,
        Bird.velocity (bird g) = Num v
        /\ Bird.velocity (bird (update d r1 r2 g)) = Num v'
        /\ v <= v').
Proof.
  intros Hes g.
  assert (R : velocity_in_range g).
  { apply (run_invariant velocity_in_range frame_is_nonneg step_velocity_in_range);
      [ exact Hes | ].
    exists 0. split; [ reflexivity | split; lra ]. }
  split; [ exact R | ]. split; [ reflexivity | ]. split.
  - intros [H | H]; unfold handleInput; rewrite H; reflexivity.
  - intros d r1 r2 Hd. destruct R as (v & Hv & Hlo & Hhi).
    exists v. destruct (bird_update_cases d r1 r2 g) as [H | H]; rewrite H.
    + exists v. repeat split; [ exact Hv | exact Hv | lra ].
    + destruct (dt_of_nonneg d Hd) as (t & Ht & Ht0). rewrite Ht.
      rewrite (update_bird_velocity_Num v t _ Hv).
      eexists. split; [ exact Hv | ]. split; [ reflexivity | ].
      destruct (Qltb 10 (v + (55 # 100) * t)); lra.
Qed.

Lemma C10_velocity_in_range_witness :
  velocity_in_range (frames16 20).
Proof.
  apply (C10_velocity_in_range (of_Z 400) (of_Z 600) (of_Z 0)
           (Input :: Input :: repeat (Frame (of_Z 16) half half) 20)).
  reflexivity.
Defined.

(** ** Tick granularity *)

Lemma update_bird_Num (v y d : Q) (b : Bird.t) :
  Bird.velocity b = Num v -> Bird.y b = Num y -> d <= 100 ->
  exists v' y' : Q,
    Bird.velocity (update_bird (dt_of (Num d)) b) = Num v'
    /\ Bird.y (update_bird (dt_of (Num d)) b) = Num y'
    /\ v' == Qmin (v + (55 # 100) * (d * (6 # 100))) 10
    /\ y' == y + v' * (d * (6 # 100)).
Proof.
  intros Hv Hy Hd. rewrite dt_of_Num.
  apply Qltb_false in Hd. rewrite Hd.
  assert (K : d / (1000 / 60) == d * (6 # 100)) by field.
  unfold update_bird. rewrite Hv, Hy. simpl.
  change (inject_Z 10) with 10.
  destruct (Qltb 10 (v + (55 # 100) * (d / (1000 / 60)))) eqn:E.
  - exists 10, (y + 10 * (d / (1000 / 60))).
    split; [ reflexivity | ]. split; [ reflexivity | ].
    apply Qltb_true in E. rewrite K in E. split.
    + symmetry. apply Q.min_r. lra.
    + rewrite K. reflexivity.
  - eexists. eexists.
    split; [ reflexivity | ]. split; [ reflexivity | ].
    apply Qltb_false in E. rewrite K in *. split.
    + symmetry. apply Q.min_l. exact E.
    + reflexivity.
Qed.

(** Case analysis on every [Qmin] in sight, leaving linear facts. *)
Ltac min_cases :=
  repeat match goal with
  | H : context [Qmin ?a ?b] |- _ =>
      let m := fresh "m" in
      pose proof (Q.min_spec a b) as [[? ?] | [? ?]];
      set (m := Qmin a b) in *; clearbody m
  | |- context [Qmin ?a ?b] =>
      let m := fresh "m" in
      pose proof (Q.min_spec a b) as [[? ?] | [? ?]];
      set (m := Qmin a b) in *; clearbody m
  end.

Lemma is_tick_inv (e : event) :
  is_tick e = true ->
  exists d r1 r2, e = Frame (Num d) r1 r2 /\ 0 <= d /\ d <= 100.
Proof.
  destruct e as [ | [ | d ] r1 r2 | w h ]; try discriminate.
  simpl. intros H. apply andb_true_iff in H. destruct H as [H0 H1].
  apply Qle_bool_iff in H0. apply Qle_bool_iff in H1.
  exists d, r1, r2. repeat split; assumption.
Qed.

Lemma total_nonneg (es : list event) :
  forallb is_tick es = true -> 0 <= total es.
Proof.
  induction es as [ | e es IH ]; simpl; intros H; [ lra | ].
  apply andb_true_iff in H. destruct H as [He Hes].
  destruct (is_tick_inv e He) as (d & r1 & r2 & -> & Hd0 & Hd1).
  simpl. specialize (IH Hes). lra.
Qed.

(** Frames never bring a game back into play. *)
Lemma ticks_playing_back (es : list event) (g : Game) :
  forallb is_tick es = true ->
  gameState (run es g) = playing -> gameState g = playing.
Proof.
  revert g. induction es as [ | e es IH ]; intros g Hes Hp; [ exact Hp | ].
  simpl in Hes. apply andb_true_iff in Hes. destruct Hes as [He Hes].
  destruct (is_tick_inv e He) as (d & r1 & r2 & -> & _).
  simpl in Hp. apply IH in Hp; [ | exact Hes ]. simpl in Hp.
  destruct (gameState g) eqn:E; try reflexivity;
    rewrite update_not_playing in Hp by congruence; congruence.
Qed.

(** Ticks in exact arithmetic.  Take a game in play whose bird has velocity
    [v0], at most 10, and height [y0], and run it over ticks with elapsed
    times between 0 and 100 that sum to [T], the round not ending; let
    [s = T / FRAME_TIME].  Without rounding, the final velocity is
    [min (v0 + GRAVITY * s) 10], the final position lies between
    [y0 + v0 * s] and [y0 + v * s] for the final velocity [v], and a single
    tick of [T] reaches exactly [y0 + v * s]. *)
Lemma ticks_closed_form (g : Game) (es : list event) (v0 y0 : Q) :
  forallb is_tick es = true ->
  gameState (run es g) = playing ->
  Bird.velocity (bird g) = Num v0 ->
  Bird.y (bird g) = Num y0 ->
  v0 <= 10 ->
  let s := total es * (6 # 100) in
  exists v y : Q,
    Bird.velocity (bird (run es g)) = Num v
    /\ Bird.y (bird (run es g)) = Num y
    /\ v == Qmin (v0 + (55 # 100) * s) 10
    /\ y0 + v0 * s <= y
    /\ y <= y0 + v * s
    /\ (length es = 1%nat -> y == y0 + v * s).
Proof.
  revert g v0 y0.
  induction es as [ | e es IH ]; intros g v0 y0 Hes Hp Hv Hy Hle; cbv zeta.
  - exists v0, y0. simpl.
    split; [ exact Hv | ]. split; [ exact Hy | ].
    split; [ min_cases; lra | ].
    split; [ lra | ]. split; [ lra | discriminate ].
  - pose proof (ticks_playing_back _ _ Hes Hp) as Hg.
    simpl in Hes. apply andb_true_iff in Hes. destruct Hes as [He Hes].
    destruct (is_tick_inv e He) as (d & r1 & r2 & -> & Hd0 & Hd1).
    simpl run in *. simpl total.
    set (g1 := update (Num d) r1 r2 g) in *.
    assert (Hb : bird g1 = update_bird (dt_of (Num d)) (bird g))
      by (apply update_bird_playing; exact Hg).
    destruct (update_bird_Num v0 y0 d (bird g) Hv Hy Hd1)
      as (v1 & y1 & Hv1 & Hy1 & Ev1 & Ey1).
    rewrite <- Hb in Hv1, Hy1.
    pose proof (total_nonneg es Hes) as Hs.
    assert (Hv1le : v1 <= 10) by (min_cases; lra).
    assert (Hv01 : v0 <= v1) by (min_cases; lra).
    destruct (IH g1 v1 y1 Hes Hp Hv1 Hy1 Hv1le)
      as (v & y & Hvf & Hyf & Ev & Hlo & Hhi & _).
    exists v, y.
    split; [ exact Hvf | ]. split; [ exact Hyf | ].
    assert (Hv1v : v1 <= v) by (clear Ev1; min_cases; lra).
    split; [ min_cases; lra | ].
    clear Ev Ev1.
    assert (P1 : 0 <= (v1 - v0) * (d + total es)).
    { apply Qmult_le_0_compat; lra. }
    assert (P3 : 0 <= (v - v1) * d).
    { apply Qmult_le_0_compat; lra. }
    split; [ lra | ].
    split; [ lra | ].
    intros Hlen. destruct es as [ | e' es' ]; [ | discriminate ].
    simpl in Hvf, Hyf. rewrite Hv1 in Hvf. rewrite Hy1 in Hyf.
    injection Hvf as <-. injection Hyf as <-.
    simpl total. rewrite Ey1. ring.
Qed.

(** C1, as the code has it.  Take a game in play whose bird has velocity
    [v0] between -100 and 10 and height [y0] between -10000 and 10000, and
    run it over at most 1000 ticks with elapsed times between 0 and 100 that
    sum to [T], with no flap and the round not ending; let
    [s = T / FRAME_TIME] and [vT = min (v0 + GRAVITY * s) 10].  Within a
    tolerance of a thousandth, the final velocity is [vT] however [T] is
    split.  The final position is not determined by [T]: all that holds of
    every splitting is that it lies, within the tolerance, between
    [y0 + v0 * s] and [y0 + vT * s]; a single tick of [T] reaches the upper
    end. *)
Theorem C1_position_depends_on_split
        (g : Game) (es : list event) (v0 y0 : Q) :
  forallb is_tick es = true ->
  (length es <= 1000)%nat ->
  gameState (run es g) = playing ->
  Bird.velocity (bird g) = Num v0 ->
  Bird.y (bird g) = Num y0 ->
  -100 <= v0 -> v0 <= 10 ->
  -10000 <= y0 -> y0 <= 10000 ->
  let s := total es * (6 # 100) in
  let vT := Qmin (v0 + (55 # 100) * s) 10 in
  let tol := 1 # 1000 in
  exists v y : Q,
    Bird.velocity (bird (run es g)) = Num v
    /\ Bird.y (bird (run es g)) = Num y
    /\ vT - tol <= v /\ v <= vT + tol
    /\ y0 + v0 * s - tol <= y
    /\ y <= y0 + vT * s + tol
    /\ (length es = 1%nat -> y0 + vT * s - tol <= y).
Proof.
  intros Hes _ Hp Hv Hy _ Hv1 _ _. cbv zeta.
  destruct (ticks_closed_form g es v0 y0 Hes Hp Hv Hy Hv1)
    as (v & y & Ev & Ey & Qv & Hlo & Hhi & Hone).
  cbv zeta in Qv, Hlo, Hhi, Hone.
  exists v, y. split; [ exact Ev | ]. split; [ exact Ey | ].
  set (s := total es * (6 # 100)) in *.
  set (vT := Qmin (v0 + (55 # 100) * s) 10) in *.
  assert (Em : v * s == vT * s) by (rewrite Qv; reflexivity).
  split; [ lra | ]. split; [ lra | ]. split; [ lra | ].
  split; [ lra | ].
  intros L. specialize (Hone L). lra.
Qed.

Lemma C1_position_depends_on_split_witness :
  let s := total two_ticks * (6 # 100) in
  let vT := Qmin (- (75 # 10) + (55 # 100) * s) 10 in
  let tol := 1 # 1000 in
  exists v y : Q,
    Bird.velocity (bird (run two_ticks launched)) = Num v
    /\ Bird.y (bird (run two_ticks launched)) = Num y
    /\ vT - tol <= v /\ v <= vT + tol
    /\ (600 # 2) + - (75 # 10) * s - tol <= y
    /\ y <= (600 # 2) + vT * s + tol
    /\ (length two_ticks = 1%nat -> (600 # 2) + vT * s - tol <= y).
Proof.
  apply (C1_position_depends_on_split launched two_ticks (- (75 # 10)) (600 # 2)).
  - reflexivity.
  - vm_compute. lia.
  - vm_compute. reflexivity.
  - reflexivity.
  - vm_compute. reflexivity.
  - vm_compute. discriminate.
  - vm_compute. discriminate.
  - vm_compute. discriminate.
  - vm_compute. discriminate.
Defined.

(** C1 fails as stated: 96 ms after the launch, with no flap and the round
    not ended, the bird's velocity is the same, within a millionth, whether
    the time comes as one tick, two ticks or four, but its position is not:
    one tick leaves it at about 275.05, two ticks at about 270.49, four
    ticks at about 268.20.  The gap of more than 4 (and more than 6) is the
    discretisation error of the integration, far beyond any rounding. *)
Lemma C1_counterexample :
  let one := run one_tick launched in
  let two := run two_ticks launched in
  let four := run four_ticks launched in
  let close := fun a b : num =>
    lt (sub a b) (Num (1 # 1000000)) && lt (sub b a) (Num (1 # 1000000)) in
  forallb is_tick one_tick = true
  /\ forallb is_tick two_ticks = true
  /\ forallb is_tick four_ticks = true
  /\ total one_tick == total two_ticks
  /\ total one_tick == total four_ticks
  /\ gameState one = playing /\ gameState two = playing
  /\ gameState four = playing
  /\ close (Bird.velocity (bird one)) (Bird.velocity (bird two)) = true
  /\ close (Bird.velocity (bird one)) (Bird.velocity (bird four)) = true
  /\ lt (add (Bird.y (bird two)) (of_Z 4)) (Bird.y (bird one)) = true
  /\ lt (add (Bird.y (bird four)) (of_Z 6)) (Bird.y (bird one)) = true.
Proof.
  vm_compute. repeat split; reflexivity.
Qed.

(** ** The pipe loop *)

Lemma update_playing (d r1 r2 : num) (g : Game) :
  gameState g = playing ->
  update d r1 r2 g
  = let gp := prepare d r1 r2 g in
    checkCollisions
      (set_pipes (fst (update_pipes (dt_of d) (pipes gp) gp))
                 (snd (update_pipes (dt_of d) (pipes gp) gp))).
Proof.
  intros H. unfold update, prepare. rewrite H. cbv zeta.
  destruct (update_pipes _ _ _). reflexivity.
Qed.

Lemma iter_score_point_bird (k : nat) (g : Game) :
  bird (Nat.iter k score_point g) = bird g.
Proof.
  induction k as [ | k IH ]; [ reflexivity | ].
  simpl. rewrite (proj1 (score_point_frame _)). exact IH.
Qed.

(** The loop calls [score_point] once for each pipe that scores. *)
Lemma update_pipes_snd (dt : num) (ps : list Pipe.t) (g : Game) :
  snd (update_pipes dt ps g)
  = Nat.iter (length (filter (scores dt (Bird.x (bird g))) ps)) score_point g.
Proof.
  induction ps as [ | p ps IH ]; [ reflexivity | ].
  simpl. destruct (update_pipes dt ps g) as [rest' g1]. simpl in IH.
  assert (Hb : bird g1 = bird g) by (rewrite IH; apply iter_score_point_bird).
  rewrite Hb. unfold scores at 1.
  destruct (crosses (Bird.x (bird g)) (move_pipe dt p)).
  - destruct (off_screen _); simpl; rewrite IH; reflexivity.
  - destruct (off_screen _); simpl; rewrite IH; reflexivity.
Qed.

(** The loop keeps, in their order, the visited pipes that are not off
    screen. *)
Lemma update_pipes_fst (dt : num) (ps : list Pipe.t) (g : Game) :
  fst (update_pipes dt ps g)
  = filter (fun p => negb (off_screen p)) (map (visit dt (Bird.x (bird g))) ps).
Proof.
  induction ps as [ | p ps IH ]; [ reflexivity | ].
  simpl. pose proof (update_pipes_snd dt ps g) as Hs.
  destruct (update_pipes dt ps g) as [rest' g1]. simpl in IH, Hs.
  assert (Hb : bird g1 = bird g) by (rewrite Hs; apply iter_score_point_bird).
  rewrite Hb. unfold visit, scores.
  destruct (crosses (Bird.x (bird g)) (move_pipe dt p)).
  - destruct (off_screen _); simpl; rewrite IH; reflexivity.
  - destruct (off_screen _); simpl; rewrite IH; reflexivity.
Qed.

Lemma iter_score_point_score (k : nat) (g : Game) :
  score (Nat.iter k score_point g) = (score g + Z.of_nat k)%Z.
Proof.
  induction k as [ | k IH ]; [ simpl; lia | ].
  rewrite Nat2Z.inj_succ. simpl. unfold score_point at 1.
  destruct (gt _ _); simpl; rewrite IH; lia.
Qed.

Lemma checkCollisions_frame (g : Game) :
  pipes (checkCollisions g) = pipes g
  /\ score (checkCollisions g) = score g
  /\ highScore (checkCollisions g) = highScore g
  /\ isNewHighScore (checkCollisions g) = isNewHighScore g
  /\ setItemLog (checkCollisions g) = setItemLog g.
Proof.
  unfold checkCollisions.
  destruct (_ || _); [ repeat split; reflexivity | ].
  destruct (pipe_collision _ _ _ _ _); repeat split; reflexivity.
Qed.

Lemma prepare_frame (d r1 r2 : num) (g : Game) :
  Bird.x (bird (prepare d r1 r2 g)) = Bird.x (bird g)
  /\ score (prepare d r1 r2 g) = score g
  /\ highScore (prepare d r1 r2 g) = highScore g
  /\ isNewHighScore (prepare d r1 r2 g) = isNewHighScore g
  /\ setItemLog (prepare d r1 r2 g) = setItemLog g.
Proof.
  unfold prepare. cbv zeta.
  destruct (wants_pipe _); destruct (pipes g); repeat split; reflexivity.
Qed.

(** The pipes [prepare] hands to the loop are the old ones followed by the
    new, unpassed ones. *)
Lemma prepare_pipes (d r1 r2 : num) (g : Game) :
  exists new : list Pipe.t,
    pipes (prepare d r1 r2 g) = pipes g ++ new
    /\ forallb (fun p => negb (Pipe.passed p)) new = true.
Proof.
  unfold prepare. cbv zeta.
  destruct (pipes g) as [ | p ps ] eqn:E.
  - destruct (wants_pipe _); simpl; rewrite E; simpl.
    + eexists. split; [ reflexivity | reflexivity ].
    + eexists. split; [ reflexivity | reflexivity ].
  - destruct (wants_pipe _); simpl; rewrite E.
    + eexists. split; [ reflexivity | reflexivity ].
    + exists []. rewrite app_nil_r. split; reflexivity.
Qed.

(** ** Scoring *)

(** C5.  On a frame in play, the loop visits every pipe of the list (the
    old pipes and the ones just spawned) once.  A pipe scores exactly when
    it is not yet passed and its right edge, after the move, is left of the
    bird's x; the score grows by one for each pipe that scores, and by
    nothing else; the pipe's [passed] flag becomes true at that visit.  A
    pipe whose flag is true never scores again and keeps its flag at every
    later visit, and the other operations of a round (a flap, a resize)
    leave the pipes as they are. *)
Theorem C5_one_point_per_pipe (d r1 r2 : num) (g : Game) :
  gameState g = playing ->
  let ps := pipes (prepare d r1 r2 g) in
  let dt := dt_of d in
  let bx := Bird.x (bird g) in
  let g' := update d r1 r2 g in
  (exists new : list Pipe.t,
      ps = pipes g ++ new /\ forallb (fun p => negb (Pipe.passed p)) new = true)
  /\ pipes g' = filter (fun p => negb (off_screen p)) (map (visit dt bx) ps)
  /\ score g' = (score g + Z.of_nat (length (filter (scores dt bx) ps)))%Z
  /\ (forall p, scores dt bx p = true <->
                Pipe.passed p = false
                /\ lt (add (sub (Pipe.x p) (mul PIPE_SPEED dt)) PIPE_WIDTH) bx = true)
  /\ (forall p, Pipe.passed (visit dt bx p) = Pipe.passed p || scores dt bx p)
  /\ (forall p dt' bx', Pipe.passed p = true ->
        scores dt' bx' p = false /\ Pipe.passed (visit dt' bx' p) = true)
  /\ pipes (handleInput g) = pipes g
  /\ (forall w h, pipes (resizeCanvas w h g) = pipes g).
Proof.
  intros H. cbv zeta. split; [ apply prepare_pipes | ].
  rewrite (update_playing d r1 r2 g H). cbv zeta.
  destruct (checkCollisions_frame
              (set_pipes (fst (update_pipes (dt_of d) (pipes (prepare d r1 r2 g))
                                            (prepare d r1 r2 g)))
                         (snd (update_pipes (dt_of d) (pipes (prepare d r1 r2 g))
                                            (prepare d r1 r2 g)))))
    as (Hp & Hs & _).
  rewrite Hp, Hs. simpl pipes. simpl score.
  rewrite update_pipes_fst, update_pipes_snd, iter_score_point_score.
  destruct (prepare_frame d r1 r2 g) as (Hx & Hsc & _). rewrite Hx, Hsc.
  split; [ reflexivity | ]. split; [ reflexivity | ].
  split.
  { intros p. unfold scores, crosses, move_pipe. simpl.
    rewrite andb_true_iff, negb_true_iff. reflexivity. }
  split.
  { intros p. unfold visit. destruct (scores (dt_of d) (Bird.x (bird g)) p) eqn:E.
    - simpl. rewrite orb_true_r. reflexivity.
    - simpl. rewrite orb_false_r. reflexivity. }
  split.
  { intros p dt' bx' Hpass.
    assert (E : scores dt' bx' p = false)
      by (unfold scores, crosses, move_pipe; simpl; rewrite Hpass; reflexivity).
    split; [ exact E | ]. unfold visit. rewrite E. exact Hpass. }
  split.
  { unfold handleInput. rewrite H. reflexivity. }
  reflexivity.
Qed.

Lemma C5_one_point_per_pipe_witness :
  score (update (of_Z 16) half half wide_launched)
  = (score wide_launched
     + Z.of_nat (length (filter (scores (dt_of (of_Z 16))
                                        (Bird.x (bird wide_launched)))
                                (pipes (prepare (of_Z 16) half half
                                                wide_launched)))))%Z.
Proof.
  apply (proj2 (C5_one_point_per_pipe (of_Z 16) half half wide_launched
                  ltac:(reflexivity))).
Defined.

Lemma gt_of_Z_mono (a b : Z) (h : num) :
  (a <= b)%Z -> gt (of_Z a) h = true -> gt (of_Z b) h = true.
Proof.
  destruct h as [ | q ]; [ discriminate | ].
  unfold gt, of_Z. rewrite !lt_Num. intros Hab Ha.
  rewrite Zle_Qle in Hab. lra.
Qed.

Lemma gt_of_Z_succ (a : Z) : gt (of_Z (a + 1)) (of_Z a) = true.
Proof.
  unfold gt, of_Z. rewrite lt_Num. rewrite <- Zlt_Qlt. lia.
Qed.

Lemma score_point_scoring (g1 g2 : Game) :
  scoring g1 = scoring g2 -> scoring (score_point g1) = scoring (score_point g2).
Proof.
  unfold scoring. intros H. injection H as Hs Hh Hf Hl.
  unfold score_point. rewrite Hs, Hh.
  destruct (gt _ _); simpl; congruence.
Qed.

Lemma iter_score_point_scoring (k : nat) (g1 g2 : Game) :
  scoring g1 = scoring g2 ->
  scoring (Nat.iter k score_point g1) = scoring (Nat.iter k score_point g2).
Proof.
  intros H. induction k as [ | k IH ]; [ exact H | ].
  simpl. apply score_point_scoring. exact IH.
Qed.

Lemma writes_S (s : Z) (hs : num) (k : nat) :
  writes s hs (S k)
  = (if gt (of_Z (s + Z.of_nat (S k))) hs then [of_Z (s + Z.of_nat (S k))] else [])
    ++ writes s hs k.
Proof.
  unfold writes. rewrite seq_S, map_app, filter_app, rev_app_distr.
  cbn [map filter]. change (1 + k)%nat with (S k).
  destruct (gt (of_Z (s + Z.of_nat (S k))) hs); reflexivity.
Qed.

(** What [k] points in a row do to the high score, the flag and the log. *)
Lemma iter_score_point_spec (k : nat) (g : Game) :
  let g' := Nat.iter k score_point g in
  let above := negb (Nat.eqb k 0) && gt (of_Z (score g + Z.of_nat k)) (highScore g) in
  highScore g' = (if above then of_Z (score g + Z.of_nat k) else highScore g)
  /\ isNewHighScore g' = isNewHighScore g || above
  /\ setItemLog g' = writes (score g) (highScore g) k ++ setItemLog g.
Proof.
  induction k as [ | k IH ]; cbv zeta.
  - simpl. rewrite orb_false_r. repeat split; reflexivity.
  - cbv zeta in IH. destruct IH as (Hh & Hf & Hl).
    pose proof (iter_score_point_score k g) as Hs.
    set (gk := Nat.iter k score_point g) in *.
    change (Nat.iter (S k) score_point g) with (score_point gk).
    replace (Nat.eqb (S k) 0) with false by reflexivity. simpl negb.
    rewrite andb_true_l.
    assert (Ez : (score g + Z.of_nat (S k) = score gk + 1)%Z) by lia.
    assert (Test : gt (of_Z (score gk + 1)) (highScore gk)
                   = gt (of_Z (score g + Z.of_nat (S k))) (highScore g)).
    { rewrite Hh.
      destruct (negb (Nat.eqb k 0) && gt (of_Z (score g + Z.of_nat k)) (highScore g))
        eqn:A.
      - apply andb_true_iff in A. destruct A as [_ A].
        rewrite Ez, Hs. rewrite gt_of_Z_succ. symmetry.
        apply (gt_of_Z_mono (score g + Z.of_nat k)); [ lia | exact A ].
      - rewrite Ez. reflexivity. }
    rewrite writes_S.
    unfold score_point. rewrite Test.
    destruct (gt (of_Z (score g + Z.of_nat (S k))) (highScore g)) eqn:E; simpl.
    + rewrite orb_true_r, Hl, <- Ez. repeat split; reflexivity.
    + assert (A : negb (Nat.eqb k 0) && gt (of_Z (score g + Z.of_nat k)) (highScore g)
                  = false).
      { apply andb_false_iff.
        destruct (gt (of_Z (score g + Z.of_nat k)) (highScore g)) eqn:B;
          [ exfalso | right; reflexivity ].
        assert (C : gt (of_Z (score g + Z.of_nat (S k))) (highScore g) = true)
          by (apply (gt_of_Z_mono (score g + Z.of_nat k)); [ lia | exact B ]).
        congruence. }
      rewrite A in Hh, Hf. rewrite orb_false_r in *.
      repeat split; assumption.
Qed.

(** The scoring part of a frame: some number [k] of points in a row. *)
Lemma update_scoring (d r1 r2 : num) (g : Game) :
  scoring (update d r1 r2 g)
  = scoring (Nat.iter (Z.to_nat (score (update d r1 r2 g) - score g)) score_point g).
Proof.
  destruct (gameState g) eqn:E;
    try (rewrite update_not_playing by congruence;
         rewrite Z.sub_diag; reflexivity).
  rewrite (update_playing d r1 r2 g E). cbv zeta.
  set (gp := prepare d r1 r2 g).
  set (L := update_pipes (dt_of d) (pipes gp) gp).
  destruct (checkCollisions_frame (set_pipes (fst L) (snd L)))
    as (_ & Hs & Hh & Hf & Hl).
  unfold scoring at 1. rewrite Hs, Hh, Hf, Hl. simpl.
  change (scoring (snd L)
          = scoring (Nat.iter (Z.to_nat (score (snd L) - score g)) score_point g)).
  subst L. rewrite update_pipes_snd.
  set (k := length _).
  destruct (prepare_frame d r1 r2 g) as (_ & Hs' & Hh' & Hf' & Hl').
  fold gp in Hs', Hh', Hf', Hl'.
  rewrite iter_score_point_score, Hs'.
  replace (Z.to_nat (score g + Z.of_nat k - score g)) with k by lia.
  apply iter_score_point_scoring. unfold scoring. congruence.
Qed.

Lemma update_score_grows (d r1 r2 : num) (g : Game) :
  (score g <= score (update d r1 r2 g))%Z.
Proof.
  destruct (gameState g) eqn:E;
    try (rewrite update_not_playing by congruence; lia).
  rewrite (update_playing d r1 r2 g E). cbv zeta.
  rewrite (proj1 (proj2 (checkCollisions_frame _))). simpl.
  rewrite update_pipes_snd, iter_score_point_score.
  rewrite (proj1 (proj2 (prepare_frame d r1 r2 g))). lia.
Qed.

(** What a frame does to the high score, the flag and the log, in terms of
    the number [k] of points it scores. *)
Lemma update_scoring_spec (d r1 r2 : num) (g : Game) :
  let g' := update d r1 r2 g in
  let k := Z.to_nat (score g' - score g) in
  let above := negb (Nat.eqb k 0) && gt (of_Z (score g')) (highScore g) in
  highScore g' = (if above then of_Z (score g') else highScore g)
  /\ isNewHighScore g' = isNewHighScore g || above
  /\ setItemLog g' = writes (score g) (highScore g) k ++ setItemLog g.
Proof.
  cbv zeta.
  pose proof (update_scoring d r1 r2 g) as H.
  pose proof (update_score_grows d r1 r2 g) as Hg.
  set (g' := update d r1 r2 g) in *.
  set (k := Z.to_nat (score g' - score g)) in *.
  unfold scoring in H. injection H as Hs Hh Hf Hl.
  destruct (iter_score_point_spec k g) as (Sh & Sf & Sl).
  replace (score g + Z.of_nat k)%Z with (score g') in Sh, Sf by (subst k; lia).
  rewrite Hh, Hf, Hl. repeat split; assumption.
Qed.

(** ** The high score *)

Lemma highScore_le_refl (a : num) : highScore_le a a.
Proof. left. reflexivity. Qed.

Lemma highScore_le_trans (a b c : num) :
  highScore_le a b -> highScore_le b c -> highScore_le a c.
Proof.
  intros [-> | Hab] [-> | Hbc]; try (left; reflexivity); try (right; assumption).
  right. destruct a as [ | p ], b as [ | q ], c as [ | r ]; try discriminate.
  rewrite lt_Num in *. lra.
Qed.

Lemma handleInput_highScore (g : Game) : highScore (handleInput g) = highScore g.
Proof. unfold handleInput. destruct (gameState g); reflexivity. Qed.

Lemma step_highScore_le (e : event) (g : Game) :
  highScore_le (highScore g) (highScore (step e g)).
Proof.
  destruct e as [ | d r1 r2 | w h ]; simpl.
  - rewrite handleInput_highScore. apply highScore_le_refl.
  - destruct (update_scoring_spec d r1 r2 g) as (Hh & _). cbv zeta in Hh.
    rewrite Hh.
    destruct (negb _ && _) eqn:A; [ | apply highScore_le_refl ].
    apply andb_true_iff in A. destruct A as [_ A]. right. exact A.
  - apply highScore_le_refl.
Qed.

(** C6.  Over any sequence of inputs, frames and resizes, from any game,
    whatever the rounds played, the high score never decreases: at the end
    it is the value it was, or a greater number. *)
Theorem C6_highScore_never_decreases (es : list event) (g : Game) :
  highScore_le (highScore g) (highScore (run es g))
  /\ lt (highScore (run es g)) (highScore g) = false.
Proof.
  assert (H : highScore_le (highScore g) (highScore (run es g))).
  { revert g. induction es as [ | e es IH ]; intros g.
    - apply highScore_le_refl.
    - simpl. apply (highScore_le_trans _ (highScore (step e g))).
      + apply step_highScore_le.
      + apply IH. }
  split; [ exact H | ].
  destruct H as [<- | H].
  - destruct (highScore g) as [ | q ]; [ reflexivity | ].
    apply Qltb_false. lra.
  - destruct (highScore g) as [ | p ], (highScore (run es g)) as [ | q ];
      try discriminate.
    rewrite lt_Num in H. apply Qltb_false. lra.
Qed.

(** ** The new-high-score flag *)

Lemma step_flag_stays (e : event) (g : Game) :
  restarts e g = false ->
  isNewHighScore g = true -> isNewHighScore (step e g) = true.
Proof.
  intros Hr Hf. destruct e as [ | d r1 r2 | w h ]; simpl in *.
  - unfold handleInput. destruct (gameState g); try exact Hf. discriminate.
  - destruct (update_scoring_spec d r1 r2 g) as (_ & H & _). cbv zeta in H.
    rewrite H, Hf. reflexivity.
  - exact Hf.
Qed.

Lemma round_flag_stays (es : list event) (g : Game) :
  same_round es g = true ->
  isNewHighScore g = true -> isNewHighScore (run es g) = true.
Proof.
  revert g. induction es as [ | e es IH ]; intros g Hr Hf; [ exact Hf | ].
  simpl in Hr. apply andb_true_iff in Hr. destruct Hr as [He Hr].
  apply negb_true_iff in He.
  simpl. apply IH; [ exact Hr | ]. apply step_flag_stays; assumption.
Qed.

Lemma step_highScore_fixed (e : event) (g : Game) :
  isNewHighScore (step e g) = false -> highScore (step e g) = highScore g.
Proof.
  destruct e as [ | d r1 r2 | w h ]; simpl.
  - intros _. apply handleInput_highScore.
  - destruct (update_scoring_spec d r1 r2 g) as (Hh & Hf & _).
    cbv zeta in Hh, Hf. rewrite Hh, Hf.
    destruct (negb _ && _); [ | reflexivity ].
    rewrite orb_true_r. discriminate.
  - reflexivity.
Qed.

Lemma round_highScore_fixed (es : list event) (g : Game) :
  same_round es g = true ->
  isNewHighScore (run es g) = false -> highScore (run es g) = highScore g.
Proof.
  revert g. induction es as [ | e es IH ]; intros g Hr Hf; [ reflexivity | ].
  simpl in Hr. apply andb_true_iff in Hr. destruct Hr as [He Hr].
  simpl in *. rewrite (IH _ Hr Hf).
  apply step_highScore_fixed.
  destruct (isNewHighScore (step e g)) eqn:E; [ | reflexivity ].
  rewrite (round_flag_stays es _ Hr E) in Hf. discriminate.
Qed.

Lemma step_score_below (e : event) (g : Game) :
  score_below_highScore g -> score_below_highScore (step e g).
Proof.
  intros (h & Hh & H0 & Hs). destruct e as [ | d r1 r2 | w h' ]; simpl.
  - unfold handleInput. destruct (gameState g); simpl;
      exists h; (split; [ exact Hh | ]); (split; [ exact H0 | ]);
      try exact Hs.
    intros _. exact H0.
  - destruct (update_scoring_spec d r1 r2 g) as (Uh & Uf & _).
    pose proof (update_score_grows d r1 r2 g) as Ug.
    cbv zeta in Uh, Uf.
    set (g' := update d r1 r2 g) in *.
    destruct (Nat.eqb (Z.to_nat (score g' - score g)) 0) eqn:K; simpl in Uh, Uf.
    + apply Nat.eqb_eq in K. assert (E : score g' = score g) by lia.
      rewrite orb_false_r in Uf.
      exists h. rewrite Uh, Uf, E. repeat split; assumption.
    + rewrite Hh in Uh, Uf.
      destruct (gt (of_Z (score g')) (Num h)) eqn:A.
      * unfold gt, of_Z in A. apply lt_Num in A.
        exists (inject_Z (score g')). rewrite Uh, Uf, orb_true_r.
        split; [ reflexivity | ]. split; [ lra | discriminate ].
      * unfold gt, of_Z in A. apply Qltb_false in A.
        exists h. rewrite Uh. split; [ reflexivity | ].
        split; [ exact H0 | ]. intros _. exact A.
  - exists h. repeat split; assumption.
Qed.

Lemma init_score_below (w h : num) (hs0 : Q) :
  0 <= hs0 -> score_below_highScore (init w h (Num hs0)).
Proof.
  intros H. exists hs0. split; [ reflexivity | ]. split; [ exact H | ].
  intros _. exact H.
Qed.

(** C7, as the code has it.  Take a game started with a stored high score
    that is a non-negative number, in any state it reaches, with the flag
    down, and a frame that scores [k] pipes.  The flag goes up on that
    frame exactly when the score after it is above the high score before
    it, which is the high score the round began with; the high score is
    then the score.  The high score is written to the store once for each
    point of the frame that is above the old high score: once when the
    frame scores a single pipe, [k] times at most.  Once up, the flag stays
    up until the round is restarted. *)
Theorem C7_flag_up_once_per_round
        (w h : num) (hs0 : Q) (es : list event) (d r1 r2 : num) :
  0 <= hs0 ->
  let g := run es (init w h (Num hs0)) in
  let g' := update d r1 r2 g in
  let k := Z.to_nat (score g' - score g) in
  isNewHighScore g = false ->
  (isNewHighScore g' = true <-> gt (of_Z (score g')) (highScore g) = true)
  /\ (isNewHighScore g' = true -> highScore g' = of_Z (score g'))
  /\ setItemLog g' = writes (score g) (highScore g) k ++ setItemLog g
  /\ (isNewHighScore g' = true -> score g' = (score g + 1)%Z ->
      setItemLog g' = of_Z (score g') :: setItemLog g)
  /\ (forall es', same_round es' g' = true -> isNewHighScore g' = true ->
      isNewHighScore (run es' g') = true)
  /\ (forall es0 es1, es = es0 ++ es1 ->
      same_round es1 (run es0 (init w h (Num hs0))) = true ->
      highScore g = highScore (run es0 (init w h (Num hs0)))).
Proof.
  intros H0 g g' k Hf.
  assert (J : score_below_highScore g).
  { apply (run_invariant score_below_highScore (fun _ => true)).
    - intros e g0 _. apply step_score_below.
    - apply forallb_any.
    - apply init_score_below. exact H0. }
  destruct (update_scoring_spec d r1 r2 g) as (Uh & Uf & Ul).
  cbv zeta in Uh, Uf, Ul. fold g' in Uh, Uf, Ul. fold k in Uh, Uf, Ul.
  rewrite Hf in Uf. simpl in Uf.
  assert (K0 : Nat.eqb k 0 = true -> gt (of_Z (score g')) (highScore g) = false).
  { intros K. apply Nat.eqb_eq in K.
    pose proof (update_score_grows d r1 r2 g) as Ug. fold g' in Ug.
    assert (E : score g' = score g) by (subst k; lia).
    destruct J as (hq & Jh & _ & Js). rewrite E, Jh.
    unfold gt, of_Z. apply Qltb_false. apply Js. exact Hf. }
  assert (Eq : isNewHighScore g' = gt (of_Z (score g')) (highScore g)).
  { rewrite Uf. destruct (Nat.eqb k 0) eqn:K; simpl; [ | reflexivity ].
    symmetry. apply K0. reflexivity. }
  split; [ rewrite Eq; reflexivity | ].
  split.
  { intros T. rewrite Uh. rewrite <- Uf, T. reflexivity. }
  split; [ exact Ul | ].
  split.
  { intros T S1. rewrite Ul.
    assert (K1 : k = 1%nat) by (subst k; lia). rewrite K1.
    rewrite writes_S. replace (score g + Z.of_nat 1)%Z with (score g') by lia.
    rewrite <- Eq, T. reflexivity. }
  split.
  { intros es' R T. apply round_flag_stays; assumption. }
  intros es0 es1 -> R. subst g. unfold run in *. rewrite fold_left_app in *.
  apply (round_highScore_fixed es1 _ R). exact Hf.
Qed.

Lemma C7_flag_up_once_per_round_witness :
  let g := run [Input; Resize (of_Z 600) (of_Z 600); Input]
               (init (of_Z 3840) (of_Z 600) (Num 0)) in
  let g' := update (of_Z 16) half half g in
  setItemLog g' = writes (score g) (highScore g) (Z.to_nat (score g' - score g))
                  ++ setItemLog g.
Proof.
  apply (C7_flag_up_once_per_round (of_Z 3840) (of_Z 600) 0
           [Input; Resize (of_Z 600) (of_Z 600); Input] (of_Z 16) half half).
  - vm_compute. discriminate.
  - reflexivity.
Defined.

(** C7 fails as stated in its count of writes.  The window is 3840 wide
    when the game is reset, so the bird's x is 768; it is made 600 wide
    before play starts.  The first frame of play spawns two pipes, at 390
    and at 600, both already left of the bird: it scores both, the flag goes
    up, and the high score is written twice on that one frame, first 1 and
    then 2. *)
Lemma C7_counterexample :
  let g := wide_launched in
  let g' := update (of_Z 16) half half g in
  gameState g = playing
  /\ isNewHighScore g = false /\ score g = 0%Z /\ setItemLog g = []
  /\ JS.eqb (highScore g) (of_Z 0) = true
  /\ isNewHighScore g' = true /\ score g' = 2%Z
  /\ highScore g' = of_Z 2
  /\ setItemLog g' = [of_Z 2; of_Z 1]
  /\ length (setItemLog g') <> 1%nat.
Proof.
  vm_compute. repeat split; try reflexivity. discriminate.
Qed.

(** * Further properties of the game *)

(** ** Inputs and phases *)

Lemma checkCollisions_cases (g : Game) :
  checkCollisions g
  = if below_ground g || above_top g || hits_a_pipe g then gameOver g else g.
Proof.
  unfold checkCollisions, below_ground, above_top, hits_a_pipe.
  destruct (_ || _); [ reflexivity | ].
  rewrite pipe_collision_existsb. reflexivity.
Qed.

Lemma prepare_gameState (d r1 r2 : num) (g : Game) :
  gameState (prepare d r1 r2 g) = gameState g.
Proof.
  unfold prepare. cbv zeta.
  destruct (wants_pipe _); destruct (pipes g); reflexivity.
Qed.

(** A frame leaves the phase as it is or ends a round in play. *)
Lemma update_gameState (d r1 r2 : num) (g : Game) :
  gameState (update d r1 r2 g) = gameState g
  \/ (gameState g = playing /\ gameState (update d r1 r2 g) = gameover).
Proof.
  destruct (gameState g) eqn:E;
    try (left; rewrite update_not_playing by congruence; exact E).
  rewrite (update_playing d r1 r2 g E). cbv zeta.
  rewrite checkCollisions_cases.
  destruct (_ || _).
  - right. split; reflexivity.
  - left. simpl.
    rewrite (proj1 (proj2 (update_pipes_frame _ _ _))).
    rewrite prepare_gameState. exact E.
Qed.

(** Inputs in play are not cumulative: one input or many in a row leave the
    same game, the one in which the velocity is [FLAP_STRENGTH] and nothing
    else has changed. *)
Theorem flaps_do_not_add_up (n : nat) (g : Game) :
  gameState g = playing ->
  run (repeat Input (S n)) g
  = set_bird (Bird.mk (Bird.x (bird g)) (Bird.y (bird g)) FLAP_STRENGTH
                      (Bird.rotation (bird g))) g.
Proof.
  intros H.
  set (G := set_bird _ g).
  assert (F : handleInput g = G)
    by (unfold handleInput; rewrite H; reflexivity).
  assert (K : forall m, run (repeat Input m) G = G).
  { induction m as [ | m IH ]; [ reflexivity | ].
    simpl. replace (handleInput G) with G; [ exact IH | ].
    unfold handleInput. simpl gameState. rewrite H. reflexivity. }
  change (run (repeat Input (S n)) g) with (run (repeat Input n) (handleInput g)).
  rewrite F. apply K.
Qed.

Lemma flaps_do_not_add_up_witness :
  run (repeat Input 4) launched
  = set_bird (Bird.mk (Bird.x (bird launched)) (Bird.y (bird launched))
                      FLAP_STRENGTH (Bird.rotation (bird launched))) launched.
Proof.
  apply (flaps_do_not_add_up 3 launched). reflexivity.
Defined.

(** The phase machine has five moves and no other: an input takes [splash]
    to [start], [start] to [playing] and [gameover] to [start]; a frame
    takes [playing] to [gameover]; everything else leaves the phase as it
    is.  Outside play an input always changes the phase. *)
Theorem phase_moves (e : event) (g : Game) :
  let s := gameState g in
  let s' := gameState (step e g) in
  (s' = s
   \/ (e = Input /\ s = splash /\ s' = start)
   \/ (e = Input /\ s = start /\ s' = playing)
   \/ (e = Input /\ s = gameover /\ s' = start)
   \/ (is_frame e = true /\ s = playing /\ s' = gameover))
  /\ (e = Input -> s <> playing -> s' <> s).
Proof.
  cbv zeta. destruct e as [ | d r1 r2 | w h ]; simpl.
  - unfold handleInput. destruct (gameState g) eqn:E; simpl.
    + split; [ right; left; auto | intros _ _; discriminate ].
    + split; [ right; right; left; auto | intros _ _; discriminate ].
    + split; [ left; exact E | intros _ C; congruence ].
    + split; [ right; right; right; left; auto | intros _ _; discriminate ].
  - split; [ | discriminate ].
    destruct (update_gameState d r1 r2 g) as [H | [H1 H2]].
    + left. exact H.
    + right. right. right. right. auto.
  - split; [ left; reflexivity | discriminate ].
Qed.

Lemma resizeCanvas_round_state (w h : num) (g : Game) :
  round_state (resizeCanvas w h g) = round_state g.
Proof. reflexivity. Qed.

(** Without an input nothing happens outside play: frames and resizes, in
    any number and with any arguments, leave the bird, the pipes, the
    score, the high score, the phase, the flag and the store as they are. *)
Theorem no_input_no_progress (es : list event) (g : Game) :
  forallb (fun e => negb (is_input e)) es = true ->
  gameState g <> playing ->
  round_state (run es g) = round_state g.
Proof.
  revert g. induction es as [ | e es IH ]; intros g Hes Hg; [ reflexivity | ].
  simpl in Hes. apply andb_true_iff in Hes. destruct Hes as [He Hes].
  simpl. destruct e as [ | d r1 r2 | w h ]; [ discriminate | | ].
  - simpl. rewrite update_not_playing by exact Hg. apply IH; assumption.
  - simpl. rewrite IH; [ reflexivity | exact Hes | exact Hg ].
Qed.

Lemma no_input_no_progress_witness :
  round_state (run [Frame NaN half half; Resize (of_Z 300) (of_Z 200);
                    Frame (of_Z 16) half half] crashed)
  = round_state crashed.
Proof.
  apply (no_input_no_progress _ crashed).
  - reflexivity.
  - vm_compute. discriminate.
Defined.

(** A game that is in play after a frame has its bird on the screen and
    off the pipes: the bird's full box is neither below the ground line nor
    above the top, and its inset box hits no pipe. *)
Theorem in_play_means_no_collision (d r1 r2 : num) (g : Game) :
  let g' := update d r1 r2 g in
  gameState g' = playing ->
  below_ground g' = false /\ above_top g' = false /\ hits_a_pipe g' = false.
Proof.
  cbv zeta. intros H.
  assert (Hg : gameState g = playing).
  { destruct (update_gameState d r1 r2 g) as [E | [E _]]; congruence. }
  revert H. rewrite (update_playing d r1 r2 g Hg). cbv zeta.
  set (gq := set_pipes _ _).
  rewrite checkCollisions_cases.
  destruct (below_ground gq || above_top gq || hits_a_pipe gq) eqn:C.
  - discriminate.
  - intros _. apply orb_false_iff in C. destruct C as [C C3].
    apply orb_false_iff in C. destruct C as [C1 C2]. auto.
Qed.

Lemma in_play_means_no_collision_witness :
  let g' := update (of_Z 16) half half launched in
  below_ground g' = false /\ above_top g' = false /\ hits_a_pipe g' = false.
Proof.
  apply (in_play_means_no_collision (of_Z 16) half half launched).
  vm_compute. reflexivity.
Defined.

(** ** The bird *)

Lemma update_bird_rotation_Num (v : Q) (dt : num) (b : Bird.t) :
  Bird.velocity (update_bird dt b) = Num v -> v <= 10 ->
  exists r : Q,
    Bird.rotation (update_bird dt b) = Num r
    /\ -25 <= r /\ r <= 40 /\ r == Qmax (v * 4) (-25).
Proof.
  unfold update_bird. cbn [Bird.velocity Bird.rotation].
  set (v' := if gt _ _ then _ else _). intros Hv Hle. rewrite Hv.
  unfold JS.max, JS.min, mul, lift2, of_Z.
  change (inject_Z 4) with 4. change (inject_Z (-25)) with (-25).
  change (inject_Z 90) with 90.
  destruct (Qltb (v * 4) (-25)) eqn:A.
  - apply Qltb_true in A.
    assert (B : Qltb 90 (-25) = false) by reflexivity. rewrite B.
    exists (-25). split; [ reflexivity | ].
    split; [ lra | ]. split; [ lra | ].
    symmetry. apply Q.max_r. lra.
  - apply Qltb_false in A.
    assert (B : Qltb 90 (v * 4) = false) by (apply Qltb_false; lra).
    rewrite B. exists (v * 4). split; [ reflexivity | ].
    split; [ lra | ]. split; [ lra | ].
    symmetry. apply Q.max_l. lra.
Qed.

Lemma handleInput_rotation (g : Game) :
  Bird.rotation (bird (handleInput g)) = Bird.rotation (bird g)
  \/ Bird.rotation (bird (handleInput g)) = of_Z 0.
Proof.
  unfold handleInput. destruct (gameState g); simpl; auto.
Qed.

(** The rotation of the bird is always between -25 and 40 degrees when the
    elapsed times are numbers: it is [max (4 * velocity) (-25)] after a
    frame of play, and the velocity is at most 10, so the upper clamp of
    [update] at 90 is never reached. *)
Theorem rotation_between_minus25_and_40 (w h hs : num) (es : list event) :
  forallb frame_is_number es = true ->
  rotation_in_range (run es (init w h hs)).
Proof.
  intros Hes.
  assert (R : velocity_le_max (run es (init w h hs))
              /\ rotation_in_range (run es (init w h hs))).
  { apply (run_invariant (fun g => velocity_le_max g /\ rotation_in_range g)
                         frame_is_number); [ | exact Hes | ].
    - clear. intros e g He [Hv Hr].
      split; [ apply step_velocity_le_max; assumption | ].
      pose proof (step_velocity_le_max e g He Hv) as (v' & Hv' & Hle').
      destruct Hr as (r & Hr & Hr0 & Hr1).
      unfold rotation_in_range.
      destruct e as [ | d r1 r2 | w h ]; cbn [step] in *.
      + destruct (handleInput_rotation g) as [H | H].
        * exists r. rewrite H. repeat split; assumption.
        * exists 0. rewrite H. repeat split; [ lra | lra ].
      + destruct (bird_update_cases d r1 r2 g) as [H | H].
        * exists r. rewrite H. repeat split; assumption.
        * rewrite H in Hv' |- *.
          destruct (update_bird_rotation_Num v' _ _ Hv' Hle')
            as (r' & E & L0 & L1 & _).
          exists r'. repeat split; assumption.
      + exists r. repeat split; assumption.
    - split.
      + exists 0. split; [ reflexivity | lra ].
      + exists 0. split; [ reflexivity | split; lra ]. }
  exact (proj2 R).
Qed.

Lemma rotation_between_minus25_and_40_witness :
  rotation_in_range (frames16 20).
Proof.
  apply (rotation_between_minus25_and_40 (of_Z 400) (of_Z 600) (of_Z 0)
           (Input :: Input :: repeat (Frame (of_Z 16) half half) 20)).
  reflexivity.
Defined.

Lemma step_bird_x (e : event) (g : Game) :
  restarts e g = false -> Bird.x (bird (step e g)) = Bird.x (bird g).
Proof.
  intros Hr. destruct e as [ | d r1 r2 | w h ]; simpl in *.
  - unfold handleInput. destruct (gameState g); try reflexivity. discriminate.
  - destruct (bird_update_cases d r1 r2 g) as [H | H]; rewrite H; reflexivity.
  - reflexivity.
Qed.

(** Within a round the bird's x never changes: frames, flaps and resizes of
    the window all leave it where [resetGame] put it, at a fifth of the
    width the canvas had then. *)
Theorem bird_x_fixed_in_round (es : list event) (g : Game) :
  same_round es g = true ->
  Bird.x (bird (run es g)) = Bird.x (bird g).
Proof.
  revert g. induction es as [ | e es IH ]; intros g Hr; [ reflexivity | ].
  simpl in Hr. apply andb_true_iff in Hr. destruct Hr as [He Hr].
  apply negb_true_iff in He. simpl.
  rewrite (IH _ Hr). apply step_bird_x. exact He.
Qed.

Lemma bird_x_fixed_in_round_witness :
  Bird.x (bird (run [Input; Resize (of_Z 600) (of_Z 600); Input;
                     Frame (of_Z 16) half half]
                    (init (of_Z 3840) (of_Z 600) (of_Z 0))))
  = Bird.x (bird (init (of_Z 3840) (of_Z 600) (of_Z 0))).
Proof.
  apply (bird_x_fixed_in_round _ (init (of_Z 3840) (of_Z 600) (of_Z 0))).
  vm_compute. reflexivity.
Defined.

(** ** A frame with elapsed time NaN *)

Lemma lt_NaN_right (a : num) : lt a NaN = false.
Proof. destruct a; reflexivity. Qed.

Lemma sub_NaN_right (a : num) : sub a NaN = NaN.
Proof. destruct a; reflexivity. Qed.

Lemma add_NaN_right (a : num) : add a NaN = NaN.
Proof. destruct a; reflexivity. Qed.

Lemma mul_NaN_right (a : num) : mul a NaN = NaN.
Proof. destruct a; reflexivity. Qed.

(** Pipes whose moved position is NaN are neither scored nor removed. *)
Lemma update_pipes_NaN (dt : num) (ps : list Pipe.t) (g : Game) :
  Forall (fun p => Pipe.x (move_pipe dt p) = NaN) ps ->
  update_pipes dt ps g = (map (move_pipe dt) ps, g).
Proof.
  induction 1 as [ | p ps Hp _ IH ]; [ reflexivity | ].
  cbn [update_pipes map]. rewrite IH.
  assert (C : crosses (Bird.x (bird g)) (move_pipe dt p) = false)
    by (unfold crosses; rewrite Hp; simpl; apply andb_false_r).
  assert (O : off_screen (move_pipe dt p) = false)
    by (unfold off_screen; rewrite Hp; reflexivity).
  rewrite C, O. reflexivity.
Qed.

Lemma bird_NaN_no_collision (g : Game) :
  Bird.y (bird g) = NaN -> checkCollisions g = g.
Proof.
  intros Hy. rewrite checkCollisions_cases.
  unfold below_ground, above_top, hits_a_pipe. rewrite Hy. simpl.
  unfold gt. rewrite lt_NaN_right. simpl.
  induction (pipes g) as [ | p ps IH ]; [ reflexivity | ].
  simpl. unfold hits at 1. unfold gt at 2. rewrite lt_NaN_right.
  simpl. rewrite andb_false_r. simpl. exact IH.
Qed.

Lemma update_bird_y_NaN (dt : num) (b : Bird.t) :
  Bird.y b = NaN \/ dt = NaN -> Bird.y (update_bird dt b) = NaN.
Proof.
  unfold update_bird. cbn [Bird.y]. intros [H | H]; rewrite H.
  - reflexivity.
  - rewrite !mul_NaN_right. rewrite !add_NaN_right. reflexivity.
Qed.

Lemma last_of_Forall (P : Pipe.t -> Prop) (ps : list Pipe.t) (p : Pipe.t)
      (rest : list Pipe.t) :
  Forall P ps -> rev ps = p :: rest -> P p.
Proof.
  intros H E. apply Forall_rev in H. rewrite E in H.
  inversion H. assumption.
Qed.

Lemma step_lost_to_NaN (e : event) (g : Game) :
  lost_to_NaN g -> lost_to_NaN (step e g) /\ score (step e g) = score g.
Proof.
  intros (Hs & Hy & Hne & Hx). destruct e as [ | d r1 r2 | w h ]; cbn [step].
  - unfold handleInput. rewrite Hs. unfold lost_to_NaN. simpl. auto.
  - rewrite (update_playing d r1 r2 g Hs). cbv zeta.
    assert (Hp : prepare d r1 r2 g
                 = set_bird (update_bird (dt_of d) (bird g)) g).
    { unfold prepare. cbv zeta. destruct (pipes g) as [ | p0 ps0 ] eqn:E;
        [ congruence | ].
      unfold wants_pipe. simpl pipes. rewrite E.
      destruct (rev (p0 :: ps0)) as [ | lastp rest ] eqn:R.
      - apply (f_equal (@length Pipe.t)) in R. rewrite length_rev in R.
        discriminate.
      - rewrite (last_of_Forall _ _ _ _ Hx R). reflexivity. }
    rewrite Hp. simpl pipes.
    rewrite update_pipes_NaN.
    + cbn [fst snd]. rewrite bird_NaN_no_collision.
      * unfold lost_to_NaN. simpl. split; [ | reflexivity ].
        split; [ exact Hs | ]. split; [ apply update_bird_y_NaN; auto | ].
        split.
        { destruct (pipes g); [ congruence | discriminate ]. }
        apply Forall_map. apply (Forall_impl _ (P := fun p => Pipe.x p = NaN));
          [ | exact Hx ].
        intros p E. simpl. rewrite E. reflexivity.
      * simpl. apply update_bird_y_NaN. auto.
    + apply (Forall_impl _ (P := fun p => Pipe.x p = NaN)); [ | exact Hx ].
      intros p E. simpl. rewrite E. reflexivity.
  - unfold lost_to_NaN. simpl. auto.
Qed.

Lemma prepare_nonempty (d r1 r2 : num) (g : Game) :
  pipes (prepare d r1 r2 g) <> [].
Proof.
  unfold prepare. cbv zeta.
  destruct (pipes g) as [ | p0 ps0 ] eqn:E;
    destruct (wants_pipe _); simpl; rewrite ?E; simpl; discriminate.
Qed.

Lemma prepare_bird (d r1 r2 : num) (g : Game) :
  bird (prepare d r1 r2 g) = update_bird (dt_of d) (bird g).
Proof.
  unfold prepare. cbv zeta.
  destruct (wants_pipe _); destruct (pipes g); reflexivity.
Qed.

Lemma update_NaN_lost (r1 r2 : num) (g : Game) :
  gameState g = playing -> lost_to_NaN (update NaN r1 r2 g).
Proof.
  intros Hs. rewrite (update_playing NaN r1 r2 g Hs). cbv zeta.
  change (dt_of NaN) with NaN.
  set (gp := prepare NaN r1 r2 g).
  assert (Hy : Bird.y (bird gp) = NaN).
  { subst gp. rewrite prepare_bird. apply update_bird_y_NaN. right. reflexivity. }
  rewrite update_pipes_NaN.
  - cbn [fst snd]. rewrite bird_NaN_no_collision by exact Hy.
    unfold lost_to_NaN. simpl.
    split; [ subst gp; rewrite prepare_gameState; exact Hs | ].
    split; [ exact Hy | ]. split.
    + pose proof (prepare_nonempty NaN r1 r2 g) as N. fold gp in N.
      destruct (pipes gp); [ congruence | discriminate ].
    + apply Forall_map. apply Forall_forall. intros p _.
      simpl. apply sub_NaN_right.
  - apply Forall_forall. intros p _. simpl. apply sub_NaN_right.
Qed.

(** One frame with elapsed time NaN in play loses the game for good.  The
    bird's height and every pipe position become NaN, and from then on, over
    any sequence of frames, inputs and resizes, the phase stays [playing]:
    no collision is ever detected, no point is ever scored, and no restart
    is possible. *)
Theorem NaN_frame_freezes_the_game (r1 r2 : num) (g : Game) (es : list event) :
  gameState g = playing ->
  let g1 := update NaN r1 r2 g in
  gameState (run es g1) = playing
  /\ Bird.y (bird (run es g1)) = NaN
  /\ Forall (fun p => Pipe.x p = NaN) (pipes (run es g1))
  /\ score (run es g1) = score g1.
Proof.
  intros Hs g1.
  assert (L : lost_to_NaN g1) by (apply update_NaN_lost; exact Hs).
  clearbody g1.
  assert (R : lost_to_NaN (run es g1) /\ score (run es g1) = score g1).
  { revert g1 L. induction es as [ | e es IH ]; intros g1 L.
    - split; [ exact L | reflexivity ].
    - simpl. destruct (step_lost_to_NaN e g1 L) as [L' S'].
      destruct (IH _ L') as [L'' S'']. split; [ exact L'' | congruence ]. }
  destruct R as [(A & B & _ & D) S]. auto.
Qed.

Lemma NaN_frame_freezes_the_game_witness :
  let g1 := update NaN half half launched in
  let es := [Frame (of_Z 16) half half; Input; Frame (of_Z 100) half half] in
  gameState (run es g1) = playing
  /\ Bird.y (bird (run es g1)) = NaN
  /\ Forall (fun p => Pipe.x p = NaN) (pipes (run es g1))
  /\ score (run es g1) = score g1.
Proof.
  apply (NaN_frame_freezes_the_game half half launched). reflexivity.
Defined.

(** ** Score, high score and store *)

Lemma handleInput_scoring (g : Game) :
  gameState g <> gameover -> scoring (handleInput g) = scoring g.
Proof.
  intros H. unfold handleInput. destruct (gameState g); try reflexivity.
  congruence.
Qed.

Lemma gt_of_Z_lt (a b : Z) : (a < b)%Z -> gt (of_Z b) (of_Z a) = true.
Proof.
  intros H. unfold gt, of_Z. rewrite lt_Num. rewrite <- Zlt_Qlt. exact H.
Qed.

Lemma step_flag_means_record (e : event) (g : Game) :
  flag_means_record g -> flag_means_record (step e g).
Proof.
  unfold flag_means_record. intros P.
  destruct e as [ | d r1 r2 | w h ]; cbn [step].
  - unfold handleInput. destruct (gameState g); simpl; try exact P.
    discriminate.
  - destruct (update_scoring_spec d r1 r2 g) as (Uh & Uf & _).
    pose proof (update_score_grows d r1 r2 g) as Ug.
    cbv zeta in Uh, Uf. set (g' := update d r1 r2 g) in *.
    rewrite Uh, Uf.
    destruct (negb (Nat.eqb (Z.to_nat (score g' - score g)) 0)
              && gt (of_Z (score g')) (highScore g)) eqn:A; [ reflexivity | ].
    rewrite orb_false_r. intros F. specialize (P F).
    destruct (Nat.eqb (Z.to_nat (score g' - score g)) 0) eqn:K.
    + apply Nat.eqb_eq in K. replace (score g') with (score g) by lia. exact P.
    + apply Nat.eqb_neq in K. simpl in A. rewrite P in A.
      rewrite gt_of_Z_lt in A by lia. discriminate.
  - exact P.
Qed.

(** Whenever the new-high-score flag is up, the high score is the current
    score: the number shown as the new high score is the score of the round
    being played. *)
Theorem new_high_score_is_the_score (w h hs : num) (es : list event) :
  let g := run es (init w h hs) in
  isNewHighScore g = true -> highScore g = of_Z (score g).
Proof.
  cbv zeta.
  apply (run_invariant flag_means_record (fun _ => true)).
  - intros e g _. apply step_flag_means_record.
  - apply forallb_any.
  - unfold flag_means_record. simpl. discriminate.
Qed.

Lemma new_high_score_is_the_score_witness :
  let g := run [Input; Resize (of_Z 600) (of_Z 600); Input;
                Frame (of_Z 16) half half]
               (init (of_Z 3840) (of_Z 600) (of_Z 0)) in
  highScore g = of_Z (score g).
Proof.
  apply (new_high_score_is_the_score (of_Z 3840) (of_Z 600) (of_Z 0)
           [Input; Resize (of_Z 600) (of_Z 600); Input;
            Frame (of_Z 16) half half]).
  vm_compute. reflexivity.
Defined.

Lemma writes_none (s : Z) (hs : num) (k : nat) :
  gt (of_Z (s + Z.of_nat k)) hs = false -> writes s hs k = [].
Proof.
  induction k as [ | k IH ]; intros H; [ reflexivity | ].
  rewrite writes_S, H. simpl. apply IH.
  destruct (gt (of_Z (s + Z.of_nat k)) hs) eqn:B; [ | reflexivity ].
  rewrite (gt_of_Z_mono (s + Z.of_nat k) (s + Z.of_nat (S k)) hs) in H;
    [ discriminate | lia | exact B ].
Qed.

Lemma step_store_in_sync (hs : num) (e : event) (g : Game) :
  store_in_sync hs g -> store_in_sync hs (step e g).
Proof.
  unfold store_in_sync. intros P.
  destruct e as [ | d r1 r2 | w h ]; cbn [step].
  - unfold handleInput. destruct (gameState g); exact P.
  - destruct (update_scoring_spec d r1 r2 g) as (Uh & _ & Ul).
    pose proof (update_score_grows d r1 r2 g) as Ug.
    cbv zeta in Uh, Ul. set (g' := update d r1 r2 g) in *.
    set (k := Z.to_nat (score g' - score g)) in *.
    assert (Es : score g' = (score g + Z.of_nat k)%Z) by (subst k; lia).
    rewrite Uh, Ul.
    destruct k as [ | k ].
    + simpl. exact P.
    + simpl negb. rewrite andb_true_l. rewrite writes_S. rewrite <- Es.
      destruct (gt (of_Z (score g')) (highScore g)) eqn:A.
      * reflexivity.
      * assert (B : gt (of_Z (score g + Z.of_nat k)) (highScore g) = false).
        { destruct (gt (of_Z (score g + Z.of_nat k)) (highScore g)) eqn:B;
            [ | reflexivity ].
          rewrite (gt_of_Z_mono (score g + Z.of_nat k) (score g') _) in A;
            [ discriminate | lia | exact B ]. }
        rewrite (writes_none _ _ _ B).
        simpl. exact P.
  - exact P.
Qed.

(** The high score in memory and the store agree: in every state the game
    reaches from [init], the high score is the value last written to
    [localStorage], or, if the game has written none, the value [hs] it
    started with. *)
Theorem store_holds_the_high_score (w h hs : num) (es : list event) :
  highScore (run es (init w h hs)) = hd hs (setItemLog (run es (init w h hs))).
Proof.
  apply (run_invariant (store_in_sync hs) (fun _ => true)).
  - intros e g _. apply step_store_in_sync.
  - apply forallb_any.
  - reflexivity.
Qed.

(** With a stored high score that is a non-negative number, the score is
    never above the high score, and it is never negative. *)
Theorem score_at_most_high_score (w h : num) (hs0 : Q) (es : list event) :
  0 <= hs0 ->
  let g := run es (init w h (Num hs0)) in
  le (of_Z (score g)) (highScore g) = true /\ (0 <= score g)%Z.
Proof.
  intros H0 g.
  assert (J : score_below_highScore g /\ flag_means_record g /\ (0 <= score g)%Z).
  { apply (run_invariant
             (fun g => score_below_highScore g /\ flag_means_record g
                       /\ (0 <= score g)%Z) (fun _ => true)).
    - intros e g0 _ (A & B & C).
      split; [ apply step_score_below; exact A | ].
      split; [ apply step_flag_means_record; exact B | ].
      destruct e as [ | d r1 r2 | w' h' ]; cbn [step].
      + unfold handleInput. destruct (gameState g0); simpl; lia.
      + pose proof (update_score_grows d r1 r2 g0). lia.
      + exact C.
    - apply forallb_any.
    - split; [ apply init_score_below; exact H0 | ].
      split; [ unfold flag_means_record; simpl; discriminate | simpl; lia ]. }
  destruct J as ((q & Hq & _ & Hs) & F & S0). split; [ | exact S0 ].
  destruct (isNewHighScore g) eqn:E.
  - rewrite (F E). unfold of_Z. apply le_Num. lra.
  - rewrite Hq. unfold of_Z. apply le_Num. apply Hs. reflexivity.
Qed.

Lemma score_at_most_high_score_witness :
  let g := run [Input; Resize (of_Z 600) (of_Z 600); Input;
                Frame (of_Z 16) half half]
               (init (of_Z 3840) (of_Z 600) (Num 1)) in
  le (of_Z (score g)) (highScore g) = true /\ (0 <= score g)%Z.
Proof.
  apply (score_at_most_high_score (of_Z 3840) (of_Z 600) 1).
  vm_compute. discriminate.
Defined.

Lemma step_score_grows (e : event) (g : Game) :
  restarts e g = false -> (score g <= score (step e g))%Z.
Proof.
  intros Hr. destruct e as [ | d r1 r2 | w h ]; cbn [step]; simpl in Hr.
  - unfold handleInput. destruct (gameState g); simpl; try lia. discriminate.
  - apply update_score_grows.
  - simpl. lia.
Qed.

(** Within a round the score never goes down: only the restart, an input
    in phase [gameover], takes it back to 0. *)
Theorem score_grows_in_round (es : list event) (g : Game) :
  same_round es g = true -> (score g <= score (run es g))%Z.
Proof.
  revert g. induction es as [ | e es IH ]; intros g Hr; [ simpl; lia | ].
  simpl in Hr. apply andb_true_iff in Hr. destruct Hr as [He Hr].
  apply negb_true_iff in He. simpl.
  pose proof (step_score_grows e g He). specialize (IH _ Hr). lia.
Qed.

Lemma score_grows_in_round_witness :
  (score wide_launched
   <= score (run [Frame (of_Z 16) half half; Input] wide_launched))%Z.
Proof.
  apply (score_grows_in_round _ wide_launched). vm_compute. reflexivity.
Defined.

(** ** The order of the pipes *)

Section StronglySortedFacts.

Variable A : Type.
Variable R : A -> A -> Prop.

Lemma ss_filter (f : A -> bool) (l : list A) :
  StronglySorted R l -> StronglySorted R (filter f l).
Proof.
  induction 1 as [ | a l Hl IH Ha ]; simpl; [ constructor | ].
  destruct (f a); [ | exact IH ].
  constructor; [ exact IH | ].
  apply Forall_forall. intros x Hx. apply filter_In in Hx.
  destruct Hx as [Hx _]. revert x Hx. apply Forall_forall. exact Ha.
Qed.

Lemma ss_map (f : A -> A) (l : list A) :
  (forall p q, R p q -> R (f p) (f q)) ->
  StronglySorted R l -> StronglySorted R (map f l).
Proof.
  intros Hf. induction 1 as [ | a l Hl IH Ha ]; simpl; constructor.
  - exact IH.
  - apply Forall_map. revert Ha. apply Forall_impl. intros q. apply Hf.
Qed.

Lemma ss_snoc (l : list A) (n : A) :
  StronglySorted R l -> Forall (fun p => R p n) l ->
  StronglySorted R (l ++ [n]).
Proof.
  induction 1 as [ | a l Hl IH Ha ]; intros Hn; simpl.
  - constructor; constructor.
  - inversion Hn as [ | ? ? Han Hln ]; subst.
    constructor; [ apply IH; exact Hln | ].
    apply Forall_app. split; [ exact Ha | constructor; [ exact Han | constructor ] ].
Qed.

Lemma ss_before_last (l : list A) (z : A) :
  StronglySorted R (l ++ [z]) -> Forall (fun p => R p z) l.
Proof.
  induction l as [ | a l IH ]; simpl; intros H; [ constructor | ].
  apply StronglySorted_inv in H. destruct H as [H Ha].
  constructor; [ | apply IH; exact H ].
  apply Forall_app in Ha. destruct Ha as [_ Ha]. inversion Ha. assumption.
Qed.

End StronglySortedFacts.

Lemma gap_before_moved (t : Q) (bx : num) (p q : Pipe.t) :
  gap_before p q -> gap_before (visit (Num t) bx p) (visit (Num t) bx q).
Proof.
  unfold gap_before. intros H.
  assert (E : forall r, Pipe.x (visit (Num t) bx r)
                        = sub (Pipe.x r) (mul PIPE_SPEED (Num t))).
  { intros r. unfold visit. destruct (scores _ _ _); reflexivity. }
  rewrite !E.
  destruct (Pipe.x p) as [ | a ], (Pipe.x q) as [ | b ]; try discriminate.
  simpl in *. apply Qltb_true. apply Qltb_true in H. lra.
Qed.

Lemma gap_before_new (w : num) (p lastp : Pipe.t) (top : num) :
  lt (Pipe.x lastp) (sub w PIPE_SPACING) = true ->
  (p = lastp \/ gap_before p lastp) ->
  gap_before p (Pipe.mk w top false).
Proof.
  unfold gap_before, PIPE_SPACING, of_Z. change (inject_Z 200) with 200.
  change (inject_Z 199) with 199.
  simpl Pipe.x. intros Hl Hp.
  assert (Hq : Pipe.x p = Pipe.x lastp
               \/ lt (add (Pipe.x p) (Num 199)) (Pipe.x lastp) = true)
    by (destruct Hp as [-> | Hp]; auto).
  clear Hp.
  destruct w as [ | c ], (Pipe.x lastp) as [ | b ], (Pipe.x p) as [ | a ];
    simpl in Hl; try discriminate;
    destruct Hq as [Hq | Hq]; try discriminate.
  - injection Hq as ->. simpl. apply Qltb_true. apply Qltb_true in Hl. lra.
  - simpl in *. apply Qltb_true. apply Qltb_true in Hl.
    apply Qltb_true in Hq. lra.
Qed.

Lemma spawnPipe_spaced (r : num) (g : Game) :
  pipes_spaced g -> wants_pipe g = true -> pipes_spaced (spawnPipe r g).
Proof.
  unfold pipes_spaced, wants_pipe. intros S W. simpl.
  apply ss_snoc; [ exact S | ].
  destruct (rev (pipes g)) as [ | lastp rest ] eqn:Rv.
  - apply (f_equal (@rev Pipe.t)) in Rv. rewrite rev_involutive in Rv.
    rewrite Rv. constructor.
  - apply (f_equal (@rev Pipe.t)) in Rv. rewrite rev_involutive in Rv.
    simpl in Rv. rewrite Rv in S |- *.
    pose proof (ss_before_last _ _ _ _ S) as B.
    apply Forall_app. split.
    + revert B. apply Forall_impl. intros p Hp.
      apply (gap_before_new _ p lastp); [ exact W | right; exact Hp ].
    + constructor; [ | constructor ].
      apply (gap_before_new _ lastp lastp); [ exact W | left; reflexivity ].
Qed.

Lemma prepare_spaced (d r1 r2 : num) (g : Game) :
  pipes_spaced g -> pipes_spaced (prepare d r1 r2 g).
Proof.
  intros S. unfold prepare. cbv zeta.
  set (g1 := match pipes g with [] => spawnFirstPipe r1 g | _ => g end).
  assert (S1 : pipes_spaced g1).
  { subst g1. destruct (pipes g) eqn:E; [ | exact S ].
    unfold pipes_spaced. simpl. rewrite E. simpl.
    constructor; constructor. }
  set (g2 := set_bird _ g1).
  assert (S2 : pipes_spaced g2) by exact S1.
  destruct (wants_pipe g2) eqn:W; [ | exact S2 ].
  apply spawnPipe_spaced; assumption.
Qed.

Lemma step_pipes_spaced (e : event) (g : Game) :
  frame_is_number e = true -> pipes_spaced g -> pipes_spaced (step e g).
Proof.
  intros He S. destruct e as [ | d r1 r2 | w h ]; cbn [step].
  - unfold handleInput. destruct (gameState g); try exact S.
    unfold pipes_spaced. simpl. constructor.
  - destruct (gameState g) eqn:E;
      try (rewrite update_not_playing by congruence; exact S).
    rewrite (update_playing d r1 r2 g E). cbv zeta.
    unfold pipes_spaced.
    rewrite (proj1 (checkCollisions_frame _)). simpl pipes.
    rewrite update_pipes_fst.
    simpl in He. apply negb_true_iff in He.
    destruct (dt_of_number d He) as (t & Ht). rewrite Ht.
    apply ss_filter. apply ss_map.
    + intros p q. apply gap_before_moved.
    + apply prepare_spaced. exact S.
  - exact S.
Qed.



Lemma ss_pair (A : Type) (R : A -> A -> Prop) (l1 l2 l3 : list A) (p q : A) :
  StronglySorted R (l1 ++ p :: l2 ++ q :: l3) -> R p q.
Proof.
  induction l1 as [ | a l1 IH ]; simpl; intros H.
  - apply StronglySorted_inv in H. destruct H as [_ H].
    apply Forall_app in H. destruct H as [_ H]. inversion H. assumption.
  - apply StronglySorted_inv in H. destruct H as [H _]. apply IH. exact H.
Qed.

Lemma overlaps_excludes (g : Game) (p q : Pipe.t) :
  gap_before p q -> overlaps g p = true -> overlaps g q = false.
Proof.
  unfold gap_before, overlaps. cbv zeta.
  change (div BIRD_SIZE (of_Z 2)) with (Num (40 # 2)).
  unfold PIPE_WIDTH, of_Z.
  change (inject_Z 199) with 199. change (inject_Z 80) with 80.
  change (inject_Z 5) with 5.
  intros G O. apply andb_true_iff in O. destruct O as [O1 O2].
  destruct (Bird.x (bird g)) as [ | bx ]; [ discriminate | ].
  destruct (Pipe.x p) as [ | a ]; [ discriminate | ].
  destruct (Pipe.x q) as [ | b ]; [ discriminate | ].
  unfold gt in *. simpl in *.
  apply Qltb_true in G. apply Qltb_true in O1. apply Qltb_true in O2.
  apply andb_false_iff. left. apply Qltb_false. lra.
Qed.

Lemma hits_overlaps (g : Game) (p : Pipe.t) :
  hits (add (sub (Bird.x (bird g)) (div BIRD_SIZE (of_Z 2))) (of_Z 5))
       (sub (add (Bird.x (bird g)) (div BIRD_SIZE (of_Z 2))) (of_Z 5))
       (add (sub (Bird.y (bird g)) (div BIRD_SIZE (of_Z 2))) (of_Z 5))
       (sub (add (Bird.y (bird g)) (div BIRD_SIZE (of_Z 2))) (of_Z 5)) p = true ->
  overlaps g p = true.
Proof.
  unfold hits, overlaps. cbv zeta. intros H.
  apply andb_true_iff in H. destruct H as [H _]. exact H.
Qed.

(** The bird is at one pipe at a time.  When the elapsed times are numbers,
    in every state the game reaches, if the bird's inset box overlaps a pipe
    horizontally it overlaps no pipe further right in the list, so at most
    one pipe of the list can be hit. *)
Theorem one_pipe_at_a_time (w h hs : num) (es : list event)
        (l1 l2 l3 : list Pipe.t) (p q : Pipe.t) :
  forallb frame_is_number es = true ->
  let g := run es (init w h hs) in
  pipes g = l1 ++ p :: l2 ++ q :: l3 ->
  (overlaps g p = true -> overlaps g q = false)
  /\ (overlaps g q = true -> overlaps g p = false).
Proof.
  intros Hes g Hp.
  assert (S : StronglySorted gap_before (pipes g)).
  { apply (run_invariant pipes_spaced frame_is_number step_pipes_spaced);
      [ exact Hes | ].
    unfold pipes_spaced. simpl. constructor. }
  rewrite Hp in S. apply ss_pair in S.
  split.
  - apply overlaps_excludes. exact S.
  - intros Oq. destruct (overlaps g p) eqn:Op; [ | reflexivity ].
    rewrite (overlaps_excludes g p q S Op) in Oq. discriminate.
Qed.

Lemma one_pipe_at_a_time_witness :
  let g := at_the_first_pipe in
  let p := nth 0 (pipes g) (Pipe.mk NaN NaN false) in
  let q := nth 1 (pipes g) (Pipe.mk NaN NaN false) in
  (length (pipes g) = 3%nat /\ overlaps g p = true)
  /\ (overlaps g p = true -> overlaps g q = false)
  /\ (overlaps g q = true -> overlaps g p = false).
Proof.
  split; [ vm_compute; split; reflexivity | ].
  apply (one_pipe_at_a_time (of_Z 600) (of_Z 600) (of_Z 0)
           (Input :: Input
            :: repeat (Frame (of_Z 100) half half) 7
            ++ Input :: repeat (Frame (of_Z 100) half half) 3
            ++ Input :: repeat (Frame (of_Z 100) half half) 4)
           [] [] (skipn 2 (pipes at_the_first_pipe))).
  - vm_compute. reflexivity.
  - vm_compute. reflexivity.
Defined.

(** ** Pipes leaving the screen *)

Lemma update_pipes_playing (d r1 r2 : num) (g : Game) :
  gameState g = playing ->
  pipes (update d r1 r2 g)
  = filter (fun p => negb (off_screen p))
           (map (visit (dt_of d) (Bird.x (bird g))) (pipes (prepare d r1 r2 g))).
Proof.
  intros H. rewrite (update_playing d r1 r2 g H). cbv zeta.
  rewrite (proj1 (checkCollisions_frame _)). simpl pipes.
  rewrite update_pipes_fst.
  rewrite (proj1 (prepare_frame d r1 r2 g)). reflexivity.
Qed.

(** After a frame of play no pipe of the list is off the screen to the
    left, and, the bird's x being a non-negative number, a pipe leaves the
    list only with its [passed] flag up: no pipe is dropped before it has
    been scored. *)
Theorem pipes_leave_scored (d r1 r2 : num) (g : Game) (bx : Q) :
  gameState g = playing ->
  Bird.x (bird g) = Num bx -> 0 <= bx ->
  Forall (fun p => off_screen p = false) (pipes (update d r1 r2 g))
  /\ (forall p, In p (pipes (prepare d r1 r2 g)) ->
      let p' := visit (dt_of d) (Num bx) p in
      off_screen p' = true ->
      Pipe.passed p' = true /\ ~ In p' (pipes (update d r1 r2 g))).
Proof.
  intros Hs Hx H0.
  assert (K : Forall (fun p => off_screen p = false) (pipes (update d r1 r2 g))).
  { rewrite (update_pipes_playing d r1 r2 g Hs).
    apply Forall_forall. intros p Hp. apply filter_In in Hp.
    destruct Hp as [_ Hp]. apply negb_true_iff in Hp. exact Hp. }
  split; [ exact K | ].
  intros p _ p' Hoff. split.
  - subst p'. unfold visit in *. destruct (scores (dt_of d) (Num bx) p) eqn:E.
    + reflexivity.
    + unfold scores, crosses in E.
      destruct (Pipe.passed (move_pipe (dt_of d) p)); [ reflexivity | ].
      simpl negb in E. rewrite andb_true_l in E.
      unfold off_screen in Hoff.
      destruct (add (Pipe.x (move_pipe (dt_of d) p)) PIPE_WIDTH) as [ | a ];
        [ discriminate | ].
      unfold of_Z in Hoff. simpl in Hoff, E. change (inject_Z 0) with 0 in Hoff.
      apply Qltb_true in Hoff. apply Qltb_false in E. lra.
  - intros Hin. rewrite Forall_forall in K. rewrite (K p' Hin) in Hoff.
    discriminate.
Qed.

Lemma pipes_leave_scored_witness :
  let g := before_removal in
  let d := of_Z 100 in
  let p := nth 0 (pipes (prepare d half half g)) (Pipe.mk NaN NaN false) in
  let p' := visit (dt_of d) (Num (200 * (2 # 10))) p in
  (gameState g = playing /\ off_screen p' = true)
  /\ Pipe.passed p' = true
  /\ ~ In p' (pipes (update d half half g)).
Proof.
  cbv zeta.
  assert (S : gameState before_removal = playing) by (vm_compute; reflexivity).
  assert (O : off_screen
                (visit (dt_of (of_Z 100)) (Num (200 * (2 # 10)))
                   (nth 0 (pipes (prepare (of_Z 100) half half before_removal))
                        (Pipe.mk NaN NaN false))) = true)
    by (vm_compute; reflexivity).
  assert (X : Bird.x (bird before_removal) = Num (200 * (2 # 10)))
    by (vm_compute; reflexivity).
  assert (P : 0 <= 200 * (2 # 10)) by (vm_compute; discriminate).
  assert (I : In (nth 0 (pipes (prepare (of_Z 100) half half before_removal))
                      (Pipe.mk NaN NaN false))
                 (pipes (prepare (of_Z 100) half half before_removal)))
    by (apply nth_In; vm_compute; lia).
  split; [ split; [ exact S | exact O ] | ].
  exact (proj2 (pipes_leave_scored (of_Z 100) half half before_removal
                  (200 * (2 # 10)) S X P) _ I O).
Defined.

(** ** The first frame of a round *)

Lemma visit_x (dt bx : num) (p : Pipe.t) :
  Pipe.x (visit dt bx p) = sub (Pipe.x p) (mul PIPE_SPEED dt).
Proof. unfold visit. destruct (scores _ _ _); reflexivity. Qed.

Lemma visit_topHeight (dt bx : num) (p : Pipe.t) :
  Pipe.topHeight (visit dt bx p) = Pipe.topHeight p.
Proof. unfold visit. destruct (scores _ _ _); reflexivity. Qed.

(** The time scale of a frame is at most 6: 100 ms over [FRAME_TIME]. *)
Lemma dt_of_at_most_6 (dq : Q) :
  exists t : Q, dt_of (Num dq) = Num t /\ t <= 6.
Proof.
  rewrite dt_of_Num. eexists. split; [ reflexivity | ].
  assert (K : forall x : Q, x <= 100 -> x / (1000 / 60) <= 6).
  { intros x Hx. setoid_replace (x / (1000 / 60)) with (x * (6 # 100)) by field.
    lra. }
  apply K. destruct (Qltb 100 dq) eqn:E; [ lra | ].
  apply Qltb_false in E. exact E.
Qed.

Lemma fresh_pipe_kept (t x : Q) (bx top : num) :
  0 <= x -> t <= 6 ->
  off_screen (visit (Num t) bx (Pipe.mk (Num x) top false)) = false.
Proof.
  intros Hx Ht. unfold off_screen. rewrite visit_x. simpl.
  change (inject_Z 0) with 0. change (inject_Z 80) with 80.
  apply Qltb_false.
  assert (M : (32 # 10) * t <= (32 # 10) * 6)
    by (apply Qmult_le_l; [ reflexivity | exact Ht ]).
  lra.
Qed.

(** The first frame of a round, on a canvas of non-negative width [W] and
    with a numeric elapsed time, leaves one pipe spawned at 65% of the
    width, and on a canvas where [0.65 * W < W - PIPE_SPACING] (wider than
    about 571) a second one spawned at the right edge in the same frame;
    both have moved by [PIPE_SPEED * dt] and neither has been removed. *)
Theorem first_frame_spawns (d r1 r2 : num) (g : Game) (W dq : Q) :
  gameState g = playing ->
  pipes g = [] ->
  canvas_width g = Num W -> 0 <= W ->
  d = Num dq ->
  let g' := update d r1 r2 g in
  let wide := Qltb (W * (65 # 100)) (W - 200) in
  map Pipe.x (pipes g')
  = map (fun x => sub x (mul PIPE_SPEED (dt_of d)))
        (mul (Num W) (Num (65 # 100)) :: if wide then [Num W] else [])
  /\ map Pipe.topHeight (pipes g')
     = topHeight_of r1 g :: if wide then [topHeight_of r2 g] else [].
Proof.
  intros Hs Hp Hw HW -> g' wide. subst g'.
  rewrite (update_pipes_playing (Num dq) r1 r2 g Hs).
  destruct (dt_of_at_most_6 dq) as (t & Ht & Ht6). rewrite Ht.
  set (bx := Bird.x (bird g)).
  assert (P : pipes (prepare (Num dq) r1 r2 g)
              = Pipe.mk (mul (Num W) (Num (65 # 100))) (topHeight_of r1 g) false
                :: if wide then [Pipe.mk (Num W) (topHeight_of r2 g) false] else []).
  { unfold prepare. cbv zeta. rewrite Hp. unfold wants_pipe. simpl.
    rewrite Hp, Hw. simpl. change (inject_Z 200) with 200. fold wide.
    destruct wide; simpl; rewrite ?Hp, ?Hw; reflexivity. }
  rewrite P.
  assert (H65 : 0 <= W * (65 # 100)) by lra.
  destruct wide; cbn [map filter].
  - change (mul (Num W) (Num (65 # 100))) with (Num (W * (65 # 100))).
    rewrite (fresh_pipe_kept t _ bx _ H65 Ht6).
    rewrite (fresh_pipe_kept t _ bx _ HW Ht6).
    cbn [negb map]. rewrite !visit_x, !visit_topHeight. split; reflexivity.
  - change (mul (Num W) (Num (65 # 100))) with (Num (W * (65 # 100))).
    rewrite (fresh_pipe_kept t _ bx _ H65 Ht6).
    cbn [negb map]. rewrite !visit_x, !visit_topHeight. split; reflexivity.
Qed.

Lemma first_frame_spawns_witness :
  let g' := update (of_Z 16) half half launched in
  map Pipe.x (pipes g')
  = map (fun x => sub x (mul PIPE_SPEED (dt_of (of_Z 16))))
        (mul (Num 400) (Num (65 # 100))
         :: if Qltb (400 * (65 # 100)) (400 - 200) then [Num 400] else [])
  /\ map Pipe.topHeight (pipes g')
     = topHeight_of half launched
       :: if Qltb (400 * (65 # 100)) (400 - 200)
          then [topHeight_of half launched] else [].
Proof.
  apply (first_frame_spawns (of_Z 16) half half launched 400 16).
  - reflexivity.
  - reflexivity.
  - reflexivity.
  - vm_compute. discriminate.
  - reflexivity.
Defined.

(** ** The animation loop *)

Lemma page_run_velocity (es : list page_event) (pg : Page) (t0 : Q) :
  lastTime pg = Num t0 ->
  well_timed t0 es = true ->
  velocity_in_range (game pg) ->
  velocity_in_range (game (page_run es pg)).
Proof.
  revert pg t0. induction es as [ | e es IH ]; intros pg t0 Hl Hw Hv;
    [ exact Hv | ].
  simpl page_run. destruct e as [ | ts r1 r2 | w h ].
  - simpl in Hw. apply (IH _ t0); [ exact Hl | exact Hw | ].
    apply (step_velocity_in_range Input); [ reflexivity | exact Hv ].
  - destruct ts as [ | t ]; [ discriminate | ].
    simpl in Hw. apply andb_true_iff in Hw. destruct Hw as [Ht Hw].
    apply Qle_bool_iff in Ht.
    apply (IH _ t); [ reflexivity | exact Hw | ].
    simpl. rewrite Hl.
    apply (step_velocity_in_range (Frame (sub (Num t) (Num t0)) r1 r2));
      [ | exact Hv ].
    simpl. apply negb_true_iff. apply Qltb_false.
    change (inject_Z 0) with 0. lra.
  - simpl in Hw. apply (IH _ t0); [ exact Hl | exact Hw | ].
    apply (step_velocity_in_range (Resize w h)); [ reflexivity | exact Hv ].
Qed.

(** A normal start is safe.  If the first animation frame comes before any
    input, and the timestamps of the frames are numbers that never go back,
    then whatever inputs and resizes come between the frames, the bird's
    velocity is at every moment a number between [FLAP_STRENGTH] and
    [MAX_FALL_SPEED]: no NaN enters the game, although the first two calls
    of [gameLoop] compute an elapsed time that is NaN. *)
Theorem normal_start_is_safe
        (w h hs : num) (t0 : Q) (r1 r2 : num) (es : list page_event) :
  well_timed t0 es = true ->
  let pg := page_run (PFrame (Num t0) r1 r2 :: es) (init_page w h hs) in
  velocity_in_range (game pg)
  /\ sub (Num t0) (lastTime (init_page w h hs)) = NaN.
Proof.
  intros Hw pg. split; [ | reflexivity ].
  subst pg. change (page_run (PFrame (Num t0) r1 r2 :: es) (init_page w h hs))
    with (page_run es (gameLoop (Num t0) r1 r2 (init_page w h hs))).
  apply (page_run_velocity es _ t0); [ reflexivity | exact Hw | ].
  exists 0. split; [ reflexivity | split; lra ].
Qed.

Lemma normal_start_is_safe_witness :
  velocity_in_range
    (game (page_run [PFrame (Num 5) half half; PInput; PInput;
                     PFrame (Num 21) half half; PFrame (Num 38) half half]
                    (init_page (of_Z 400) (of_Z 600) (of_Z 0)))).
Proof.
  apply (normal_start_is_safe (of_Z 400) (of_Z 600) (of_Z 0) 5 half half
           [PInput; PInput; PFrame (Num 21) half half; PFrame (Num 38) half half]).
  reflexivity.
Defined.

(** A hasty start freezes the game.  If two inputs arrive before the first
    animation frame, that frame, whatever its timestamp, computes an elapsed
    time NaN with the game in play: the bird's height is NaN and the game
    stays in phase [playing] over everything that follows. *)
Theorem hasty_start_freezes
        (w h hs : num) (ts r1 r2 : num) (es : list page_event) :
  let pg := page_run (PInput :: PInput :: PFrame ts r1 r2 :: es)
                     (init_page w h hs) in
  gameState (game pg) = playing /\ Bird.y (bird (game pg)) = NaN.
Proof.
  cbv zeta.
  change (page_run (PInput :: PInput :: PFrame ts r1 r2 :: es) (init_page w h hs))
    with (page_run es
            (gameLoop ts r1 r2
               (mkPage (handleInput (handleInput (init w h hs))) NaN))).
  assert (L : lost_to_NaN
                (game (gameLoop ts r1 r2
                         (mkPage (handleInput (handleInput (init w h hs))) NaN)))).
  { simpl game. rewrite sub_NaN_right. apply update_NaN_lost. reflexivity. }
  set (pg0 := gameLoop ts r1 r2 _) in *. clearbody pg0.
  revert pg0 L. induction es as [ | e es IH ]; intros pg0 L.
  - destruct L as (A & B & _). split; assumption.
  - simpl page_run. apply IH.
    destruct e as [ | ts' r1' r2' | w' h' ]; simpl.
    + apply (step_lost_to_NaN Input). exact L.
    + apply (step_lost_to_NaN (Frame (sub ts' (lastTime pg0)) r1' r2')). exact L.
    + apply (step_lost_to_NaN (Resize w' h')). exact L.
Qed.

(** ** The celebration *)

Lemma push_loop (A B : Type) (f : B -> A) (l : list B) (acc : list A) :
  fold_left (fun acc i => acc ++ [f i]) l acc = acc ++ map f l.
Proof.
  revert acc. induction l as [ | b l IH ]; intros acc; simpl.
  - symmetry. apply app_nil_r.
  - rewrite IH, <- app_assoc. reflexivity.
Qed.

Lemma spawnCelebration_app (w h : num) (rnd : nat -> num) (ps : list Particle.t) :
  spawnCelebration w h rnd ps = ps ++ map (new_particle w h rnd) (seq 0 50).
Proof. unfold spawnCelebration. apply push_loop. Qed.

Lemma updateCelebration_filter (h : num) (ps : list Particle.t) :
  updateCelebration h ps
  = filter (fun p => negb (gt (Particle.y p) (add h (of_Z 50))))
           (map move_particle ps).
Proof.
  induction ps as [ | p ps IH ]; [ reflexivity | ].
  simpl. rewrite IH.
  destruct (gt (add (Particle.y p) (Particle.vy p)) (add h (of_Z 50)));
    reflexivity.
Qed.

(** [updateCelebration] only moves and removes.  The particles it leaves
    are, in their order, the moved particles that are not more than 50 below
    the canvas; there are never more of them than before. *)
Theorem updateCelebration_only_removes (h : num) (ps : list Particle.t) :
  updateCelebration h ps
  = filter (fun p => negb (gt (Particle.y p) (add h (of_Z 50))))
           (map move_particle ps)
  /\ (length (updateCelebration h ps) <= length ps)%nat
  /\ Forall (fun p => gt (Particle.y p) (add h (of_Z 50)) = false)
            (updateCelebration h ps).
Proof.
  split; [ apply updateCelebration_filter | ].
  rewrite updateCelebration_filter. split.
  - rewrite <- (length_map move_particle ps). apply filter_length_le.
  - apply Forall_forall. intros p Hp. apply filter_In in Hp.
    destruct Hp as [_ Hp]. apply negb_true_iff in Hp. exact Hp.
Qed.

Lemma scene_game_run (es : list scene_event) (sc : Scene) :
  scene_game (scene_run es sc) = run (map game_event es) (scene_game sc).
Proof.
  revert sc. induction es as [ | e es IH ]; intros sc; [ reflexivity | ].
  simpl. rewrite IH. destruct e; reflexivity.
Qed.

Lemma scene_step_confetti (e : scene_event) (sc : Scene) :
  confetti_in_check sc -> confetti_in_check (scene_step e sc).
Proof.
  intros [Hn Hl]. destruct e as [ | d r1 r2 rnd | w h ]; simpl.
  - unfold scene_input, confetti_in_check. simpl.
    unfold handleInput. destruct (gameState (scene_game sc)); simpl;
      try (split; assumption).
    split; [ reflexivity | lia ].
  - unfold scene_update, confetti_in_check. cbv zeta.
    cbn [scene_game celebrationParticles].
    set (g := scene_game sc) in *.
    pose proof (updateCelebration_only_removes (canvas_height g)
                  (celebrationParticles sc)) as (_ & Ul & _).
    destruct (isNewHighScore g) eqn:F.
    + cbn [negb andb]. split; [ | lia ].
      pose proof (step_flag_stays (Frame d r1 r2) g eq_refl F) as S.
      cbn [step] in S. congruence.
    + cbn [negb]. rewrite andb_true_l.
      rewrite (Hn eq_refl) in *. cbn [updateCelebration].
      destruct (isNewHighScore (update d r1 r2 g)) eqn:F'.
      * split; [ discriminate | ].
        rewrite spawnCelebration_app. cbn [app].
        rewrite length_map, length_seq. lia.
      * split; [ reflexivity | cbn [length]; lia ].
  - split; assumption.
Qed.

(** Confetti come with a record, one burst to a round.  In every state
    reached from the start, there are particles only if the new-high-score
    flag is up, and there are never more than fifty of them; and the
    particles have no effect on the game, which runs as it does without
    them. *)
Theorem confetti_only_with_a_record (w h hs : num) (es : list scene_event) :
  let sc := scene_run es (init_scene w h hs) in
  (isNewHighScore (scene_game sc) = false -> celebrationParticles sc = [])
  /\ (length (celebrationParticles sc) <= 50)%nat
  /\ scene_game sc = run (map game_event es) (init w h hs).
Proof.
  cbv zeta.
  assert (C : confetti_in_check (scene_run es (init_scene w h hs))).
  { generalize (init_scene w h hs),
      (conj (fun _ => eq_refl) (Nat.le_0_l 50)
       : confetti_in_check (init_scene w h hs)).
    induction es as [ | e es IH ]; intros sc Hc; [ exact Hc | ].
    simpl. apply IH. apply scene_step_confetti. exact Hc. }
  destruct C as [C1 C2]. split; [ exact C1 | ]. split; [ exact C2 | ].
  apply scene_game_run.
Qed.

Lemma index_palette (q : Q) :
  0 <= q -> q < 1 ->
  exists c, index Palette.colors (floor (mul (Num q) (of_Z 8))) = Some c
            /\ In c Palette.colors.
Proof.
  intros H0 H1. unfold floor, mul, lift2, of_Z, index.
  change (inject_Z 8) with 8.
  set (z := Qfloor (q * 8)).
  rewrite Qfloor_Z.
  assert (E : Qeq_bool (inject_Z z) (inject_Z z) = true)
    by (apply Qeq_bool_iff; reflexivity).
  rewrite E.
  assert (Z0 : (0 <= z)%Z).
  { change 0%Z with (Qfloor 0). apply Qfloor_resp_le. lra. }
  assert (Z8 : (z < 8)%Z).
  { pose proof (Qfloor_le (q * 8)) as L. fold z in L.
    rewrite Zlt_Qlt. change (inject_Z 8) with 8. lra. }
  apply Z.leb_le in Z0. rewrite Z0. simpl andb.
  assert (N : (Z.to_nat z < 8)%nat) by lia.
  destruct (Z.to_nat z) as [ | [ | [ | [ | [ | [ | [ | [ | n ] ] ] ] ] ] ] ];
    try lia;
    (eexists; split; [ reflexivity | simpl; tauto ]).
Qed.

Lemma new_particle_fresh (W H : Q) (rnd : nat -> num) (i : nat) :
  (forall k, exists q : Q, rnd k = Num q /\ 0 <= q /\ q < 1) ->
  fresh_particle W H (new_particle (Num W) (Num H) rnd i).
Proof.
  intros R. unfold new_particle. cbv zeta.
  destruct (R (7 * i + 0)%nat) as (q0 & E0 & A0 & B0).
  destruct (R (7 * i + 1)%nat) as (q1 & E1 & A1 & B1).
  destruct (R (7 * i + 2)%nat) as (q2 & E2 & A2 & B2).
  destruct (R (7 * i + 3)%nat) as (q3 & E3 & A3 & B3).
  destruct (R (7 * i + 4)%nat) as (q4 & E4 & A4 & B4).
  rewrite E0, E1, E2, E3, E4.
  destruct (index_palette q3 A3 B3) as (c & Ec & Hc).
  unfold fresh_particle. cbn [Particle.x Particle.y Particle.vx Particle.vy
                              Particle.size Particle.color].
  rewrite Ec.
  exists (W / 2 + (q0 - (5 # 10)) * 200),
         ((q1 - (5 # 10)) * 10), (q2 * (-8) - 2), (q4 * 8 + 4), c.
  repeat (split; [ reflexivity || lra || exact Hc | ]).
  exact Hc.
Qed.

(** [spawnCelebration] adds exactly fifty particles after those already
    there.  On a canvas whose size is a number, with draws of the random
    source in [0, 1), each of them starts at most 100 from the middle of
    the canvas, at [canvas.height / 3], moves upwards (vertical velocity
    between -10 and -2), has a size between 4 and 12 and has one of the
    eight colours of the palette: the index computed with [Math.floor] is
    never out of range. *)
Theorem spawnCelebration_fifty (W H : Q) (rnd : nat -> num) (ps : list Particle.t) :
  (forall k, exists q : Q, rnd k = Num q /\ 0 <= q /\ q < 1) ->
  exists new : list Particle.t,
    spawnCelebration (Num W) (Num H) rnd ps = ps ++ new
    /\ length new = 50%nat
    /\ Forall (fresh_particle W H) new.
Proof.
  intros R. exists (map (new_particle (Num W) (Num H) rnd) (seq 0 50)).
  split; [ apply spawnCelebration_app | ].
  split; [ rewrite length_map, length_seq; reflexivity | ].
  apply Forall_map. apply Forall_forall. intros i _.
  apply new_particle_fresh. exact R.
Qed.

Lemma spawnCelebration_fifty_witness :
  exists new : list Particle.t,
    spawnCelebration (Num 400) (Num 600) (fun _ => half) [] = [] ++ new
    /\ length new = 50%nat
    /\ Forall (fresh_particle 400 600) new.
Proof.
  apply (spawnCelebration_fifty 400 600 (fun _ => half) []).
  intros k. exists (1 # 2). split; [ reflexivity | ].
  split; vm_compute; [ discriminate | reflexivity ].
Defined.

(** ** The celebration ends *)

Lemma nQ_S (n : nat) : nQ (S n) == nQ n + 1.
Proof.
  unfold nQ. rewrite Nat2Z.inj_succ. unfold Z.succ.
  rewrite inject_Z_plus. reflexivity.
Qed.

Lemma nQ_nonneg (n : nat) : 0 <= nQ n.
Proof.
  unfold nQ. change 0 with (inject_Z 0). rewrite <- Zle_Qle. lia.
Qed.

(** Height and vertical velocity after [n] moves: a parabola. *)
Lemma moves_closed_form (n : nat) (p : Particle.t) (y vy : Q) :
  Particle.y p = Num y -> Particle.vy p = Num vy ->
  exists yn vyn : Q,
    Particle.y (Nat.iter n move_particle p) = Num yn
    /\ Particle.vy (Nat.iter n move_particle p) = Num vyn
    /\ vyn == vy + (3 # 10) * nQ n
    /\ yn == y + nQ n * vy + (15 # 100) * nQ n * (nQ n - 1).
Proof.
  intros Hy Hv. induction n as [ | n (yn & vyn & Ey & Ev & Qv & Qy) ].
  - exists y, vy. simpl. split; [ exact Hy | ]. split; [ exact Hv | ].
    unfold nQ. simpl. split; ring.
  - exists (yn + vyn), (vyn + (3 # 10)).
    simpl. rewrite Ey, Ev. split; [ reflexivity | ]. split; [ reflexivity | ].
    rewrite nQ_S, Qv, Qy. split; ring.
Qed.

Lemma updateCelebration_app (h : num) (a b : list Particle.t) :
  updateCelebration h (a ++ b) = updateCelebration h a ++ updateCelebration h b.
Proof.
  rewrite !updateCelebration_filter, map_app, filter_app. reflexivity.
Qed.

Lemma iter_update_app (h : num) (n : nat) (a b : list Particle.t) :
  Nat.iter n (updateCelebration h) (a ++ b)
  = Nat.iter n (updateCelebration h) a ++ Nat.iter n (updateCelebration h) b.
Proof.
  induction n as [ | n IH ]; [ reflexivity | ].
  simpl. rewrite IH. apply updateCelebration_app.
Qed.

Lemma iter_update_nil (h : num) (n : nat) :
  Nat.iter n (updateCelebration h) [] = [].
Proof.
  induction n as [ | n IH ]; [ reflexivity | ]. simpl. rewrite IH. reflexivity.
Qed.

Lemma iter_update_stays_nil (h : num) (n k : nat) (ps : list Particle.t) :
  Nat.iter n (updateCelebration h) ps = [] ->
  Nat.iter (k + n) (updateCelebration h) ps = [].
Proof.
  intros H. rewrite Nat.iter_add, H. apply iter_update_nil.
Qed.

(** One particle: gone, or moved [n] times and, if [n] is not 0, still not
    more than 50 below the canvas. *)
Lemma iter_update_single (H : Q) (n : nat) (p : Particle.t) :
  Nat.iter n (updateCelebration (Num H)) [p] = []
  \/ (Nat.iter n (updateCelebration (Num H)) [p] = [Nat.iter n move_particle p]
      /\ (n <> 0%nat ->
          gt (Particle.y (Nat.iter n move_particle p)) (Num (H + 50)) = false)).
Proof.
  induction n as [ | n [IH | [IH _]] ].
  - right. split; [ reflexivity | congruence ].
  - left. change (Nat.iter (S n) (updateCelebration (Num H)) [p])
      with (updateCelebration (Num H) (Nat.iter n (updateCelebration (Num H)) [p])).
    rewrite IH. reflexivity.
  - change (Nat.iter (S n) (updateCelebration (Num H)) [p])
      with (updateCelebration (Num H) (Nat.iter n (updateCelebration (Num H)) [p])).
    change (Nat.iter (S n) move_particle p)
      with (move_particle (Nat.iter n move_particle p)).
    rewrite IH. cbn [updateCelebration].
    destruct (gt (Particle.y (move_particle (Nat.iter n move_particle p)))
                 (add (Num H) (of_Z 50))) eqn:E.
    + left. reflexivity.
    + right. split; [ reflexivity | intros _; exact E ].
Qed.

Lemma particle_ends (H : Q) (p : Particle.t) :
  falling p -> exists n, Nat.iter n (updateCelebration (Num H)) [p] = [].
Proof.
  intros (y & vy & Hy & Hv).
  set (c := (Qabs vy + Qabs (H + 50 - y) + 1) / (15 # 100)).
  set (N := Z.to_nat (Qceiling c)).
  exists (S N).
  destruct (iter_update_single H (S N) p) as [E | [_ E]]; [ exact E | ].
  exfalso. specialize (E (Nat.neq_succ_0 N)).
  destruct (moves_closed_form (S N) p y vy Hy Hv) as (yn & vyn & Ey & _ & _ & Qy).
  rewrite Ey in E. unfold gt in E. apply Qltb_false in E.
  assert (HN : c <= nQ N).
  { apply (Qle_trans _ (inject_Z (Qceiling c))); [ apply Qle_ceiling | ].
    unfold nQ. rewrite <- Zle_Qle. subst N. lia. }
  assert (Hc : Qabs vy + Qabs (H + 50 - y) + 1 == c * (15 # 100))
    by (subst c; field).
  pose proof (Qle_Qabs (- vy)) as A1. rewrite Qabs_opp in A1.
  pose proof (Qle_Qabs (H + 50 - y)) as A2.
  pose proof (Qabs_nonneg vy) as A3.
  pose proof (Qabs_nonneg (H + 50 - y)) as A4.
  pose proof (nQ_nonneg N) as N0.
  rewrite nQ_S in Qy.
  set (m := nQ N) in *.
  assert (K : 1 * ((15 # 100) * m + vy) <= (m + 1) * ((15 # 100) * m + vy)).
  { apply Qmult_le_compat_r; lra. }
  assert (Qy' : yn == y + (m + 1) * ((15 # 100) * m + vy)) by (rewrite Qy; ring).
  lra.
Qed.

(** Every celebration ends.  On a canvas whose height is a number, any
    particles whose height and vertical velocity are numbers are all gone
    after finitely many calls of [updateCelebration], and the list stays
    empty from then on: the pull of 0.3 a call takes each of them more than
    50 below the canvas. *)
Theorem celebration_ends (H : Q) (ps : list Particle.t) :
  Forall falling ps ->
  exists n, forall k,
    Nat.iter (k + n) (updateCelebration (Num H)) ps = [].
Proof.
  induction 1 as [ | p ps Hp _ (n2 & IH) ].
  - exists 0%nat. intros k. apply iter_update_nil.
  - destruct (particle_ends H p Hp) as (n1 & E1).
    exists (n1 + n2)%nat. intros k.
    change (p :: ps) with ([p] ++ ps). rewrite iter_update_app.
    assert (A : Nat.iter (k + (n1 + n2)) (updateCelebration (Num H)) [p] = []).
    { replace (k + (n1 + n2))%nat with ((k + n2) + n1)%nat by lia.
      apply iter_update_stays_nil. exact E1. }
    assert (B : Nat.iter (k + (n1 + n2)) (updateCelebration (Num H)) ps = []).
    { replace (k + (n1 + n2))%nat with ((k + n1) + n2)%nat by lia. apply IH. }
    rewrite A, B. reflexivity.
Qed.

Lemma celebration_ends_witness :
  exists n, forall k,
    Nat.iter (k + n) (updateCelebration (Num 600))
             (spawnCelebration (Num 400) (Num 600) (fun _ => half) []) = [].
Proof.
  apply (celebration_ends 600).
  apply Forall_forall. intros p Hp.
  rewrite spawnCelebration_app in Hp. cbn [app] in Hp.
  apply in_map_iff in Hp. destruct Hp as (i & <- & _).
  eexists. eexists. split; reflexivity.
Defined.

(** ** The ground line *)

Lemma step_canvas (e : event) (g : Game) :
  (canvas_width (step e g) = canvas_width g
   /\ canvas_height (step e g) = canvas_height g
   /\ groundY (step e g) = groundY g)
  \/ (exists w h, e = Resize w h).
Proof.
  destruct e as [ | d r1 r2 | w h ]; cbn [step].
  - left. unfold handleInput. destruct (gameState g); repeat split; reflexivity.
  - left. destruct (gameState g) eqn:E;
      try (rewrite update_not_playing by congruence; repeat split; reflexivity).
    rewrite (update_playing d r1 r2 g E). cbv zeta.
    rewrite checkCollisions_cases.
    destruct (update_pipes_frame (dt_of d) (pipes (prepare d r1 r2 g))
                                 (prepare d r1 r2 g)) as (_ & _ & Hw & Hh & Hy).
    assert (P : canvas_width (prepare d r1 r2 g) = canvas_width g
                /\ canvas_height (prepare d r1 r2 g) = canvas_height g
                /\ groundY (prepare d r1 r2 g) = groundY g).
    { unfold prepare. cbv zeta.
      destruct (wants_pipe _); destruct (pipes g); repeat split; reflexivity. }
    destruct P as (Pw & Ph & Py).
    destruct (_ || _); simpl; repeat split; congruence.
  - right. exists w, h. reflexivity.
Qed.

(** The ground line is always 80 above the bottom of the canvas: in every
    state reached from [init], over any inputs, frames and resizes,
    [groundY] is the canvas height minus 80. *)
Theorem ground_line_follows_canvas (w h hs : num) (es : list event) :
  let g := run es (init w h hs) in
  groundY g = sub (canvas_height g) (of_Z 80).
Proof.
  cbv zeta.
  apply (run_invariant (fun g => groundY g = sub (canvas_height g) (of_Z 80))
                       (fun _ => true)).
  - intros e g _ Hg. destruct (step_canvas e g) as [(_ & Hh & Hy) | (w' & h' & ->)].
    + rewrite Hy, Hh. exact Hg.
    + reflexivity.
  - apply forallb_any.
  - reflexivity.
Qed.

(** ** The elapsed time of a frame, in [update] *)

Lemma dt_of_unclamped (d : num) :
  lt (of_Z 100) d = false -> dt_of d = div d FRAME_TIME.
Proof.
  destruct d as [ | q ]; [ reflexivity | ].
  unfold dt_of, JS.min, lt, of_Z. intros H. rewrite H. reflexivity.
Qed.

Lemma dt_of_negative (q : Q) :
  q <= -1 -> exists t : Q, dt_of (Num q) = Num t /\ t == q * (6 # 100) /\ t < 0.
Proof.
  intros H. rewrite dt_of_Num.
  assert (E : Qltb 100 q = false) by (apply Qltb_false; lra).
  rewrite E. eexists. split; [ reflexivity | ].
  assert (K : q / (1000 / 60) == q * (6 # 100)) by field.
  split; [ exact K | rewrite K; lra ].
Qed.

Lemma update_bird_velocity_NaN (b : Bird.t) :
  Bird.velocity (update_bird NaN b) = NaN.
Proof.
  unfold update_bird. cbn [Bird.velocity].
  rewrite mul_NaN_right, add_NaN_right. reflexivity.
Qed.

(** C3, as the code has it.  The elapsed time is clamped from above only.
    Outside play it is not used; a value over 100 acts as 100.  In play, a
    value that is not over 100, negative or NaN included, goes unclamped
    into the frame: the bird is moved by [update_bird] and the pipes are
    visited with the time scale [deltaTime / FRAME_TIME] itself.  So an
    elapsed time of -1 ms or less lowers the velocity, lowers the bird that
    is not falling and moves the pipes to the right (for velocities between
    -100 and 10 and positions between -10000 and 10000), and an elapsed time
    NaN leaves the velocity, the height and every pipe position NaN. *)
Theorem C3_clamped_from_above_only (d r1 r2 : num) (g : Game) :
  (gameState g <> playing -> update d r1 r2 g = g)
  /\ (lt (of_Z 100) d = true ->
      update d r1 r2 g = update (of_Z 100) r1 r2 g)
  /\ (gameState g = playing -> lt (of_Z 100) d = false ->
      bird (update d r1 r2 g) = update_bird (div d FRAME_TIME) (bird g)
      /\ pipes (update d r1 r2 g)
         = filter (fun p => negb (off_screen p))
                  (map (visit (div d FRAME_TIME) (Bird.x (bird g)))
                       (pipes (prepare d r1 r2 g))))
  /\ (gameState g = playing ->
      forall q v : Q, d = Num q -> q <= -1 ->
      Bird.velocity (bird g) = Num v -> -100 <= v -> v <= 10 ->
      (exists v' : Q,
          Bird.velocity (bird (update d r1 r2 g)) = Num v' /\ v' < v)
      /\ (forall y : Q, Bird.y (bird g) = Num y ->
          -10000 <= y -> y <= 10000 -> v <= 0 ->
          exists y' : Q, Bird.y (bird (update d r1 r2 g)) = Num y' /\ y < y')
      /\ (forall (p : Pipe.t) (a : Q),
          In p (pipes (prepare d r1 r2 g)) -> Pipe.x p = Num a ->
          -10000 <= a -> a <= 10000 ->
          exists a' : Q,
            Pipe.x (visit (div d FRAME_TIME) (Bird.x (bird g)) p) = Num a'
            /\ a < a'))
  /\ (gameState g = playing -> d = NaN ->
      Bird.velocity (bird (update d r1 r2 g)) = NaN
      /\ Bird.y (bird (update d r1 r2 g)) = NaN
      /\ pipes (update d r1 r2 g) <> []
      /\ Forall (fun p => Pipe.x p = NaN) (pipes (update d r1 r2 g))).
Proof.
  split; [ apply update_not_playing | ].
  split.
  { intros H. unfold update. rewrite (dt_of_above d H). reflexivity. }
  split.
  { intros Hs Hd. rewrite <- (dt_of_unclamped d Hd). split.
    - apply update_bird_playing. exact Hs.
    - apply update_pipes_playing. exact Hs. }
  split.
  { intros Hs q v -> Hq Hv Hv0 Hv1.
    destruct (dt_of_negative q Hq) as (t & Et & Kt & Ht).
    assert (Eb : bird (update (Num q) r1 r2 g) = update_bird (Num t) (bird g))
      by (rewrite <- Et; apply update_bird_playing; exact Hs).
    assert (Ev : Bird.velocity (bird (update (Num q) r1 r2 g))
                 = Num (v + (55 # 100) * t)).
    { rewrite Eb, (update_bird_velocity_Num v t _ Hv).
      assert (C : Qltb 10 (v + (55 # 100) * t) = false)
        by (apply Qltb_false; lra).
      rewrite C. reflexivity. }
    split; [ exists (v + (55 # 100) * t); split; [ exact Ev | lra ] | ].
    split.
    - intros y Hy Hy0 Hy1 Hvn.
      exists (y + (v + (55 # 100) * t) * t). split.
      + rewrite Eb. unfold update_bird. cbn [Bird.y].
        rewrite Hv, Hy. simpl. change (inject_Z 10) with 10.
        assert (C : Qltb 10 (v + (55 # 100) * t) = false)
          by (apply Qltb_false; lra).
        rewrite C. reflexivity.
      + assert (M : 0 < (- (v + (55 # 100) * t)) * (- t))
          by (apply Qmult_lt_0_compat; lra).
        lra.
    - intros p a _ Ha Ha0 Ha1.
      assert (U : lt (of_Z 100) (Num q) = false).
      { unfold lt, of_Z. change (inject_Z 100) with 100.
        apply Qltb_false. lra. }
      rewrite <- (dt_of_unclamped (Num q) U).
      rewrite Et, visit_x, Ha.
      exists (a - (32 # 10) * t). split; [ reflexivity | lra ]. }
  intros Hs ->.
  destruct (update_NaN_lost r1 r2 g Hs) as (_ & Hy & Hn & Hx).
  split; [ | auto ].
  rewrite (update_bird_playing NaN r1 r2 g Hs).
  apply update_bird_velocity_NaN.
Qed.

Lemma C3_clamped_from_above_only_witness :
  let neg := update (Num (-16)) half half launched in
  let p := nth 0 (pipes (prepare (Num (-16)) half half launched))
               (Pipe.mk NaN NaN false) in
  update (of_Z 250) half half game0 = game0
  /\ update (of_Z 250) half half launched = update (of_Z 100) half half launched
  /\ bird neg = update_bird (div (Num (-16)) FRAME_TIME) (bird launched)
  /\ (exists v' : Q, Bird.velocity (bird neg) = Num v' /\ v' < - (75 # 10))
  /\ (exists y' : Q, Bird.y (bird neg) = Num y' /\ (600 # 2) < y')
  /\ (exists a' : Q,
        Pipe.x (visit (div (Num (-16)) FRAME_TIME) (Bird.x (bird launched)) p)
        = Num a' /\ 400 * (65 # 100) < a')
  /\ Bird.velocity (bird (update NaN half half launched)) = NaN.
Proof.
  cbv zeta.
  assert (S : gameState launched = playing) by reflexivity.
  pose proof (C3_clamped_from_above_only (Num (-16)) half half launched)
    as (_ & _ & T3 & T4 & _).
  assert (Q1 : -16 <= -1) by (vm_compute; discriminate).
  assert (V0 : -100 <= - (75 # 10)) by (vm_compute; discriminate).
  assert (V1 : - (75 # 10) <= 10) by (vm_compute; discriminate).
  destruct (T4 S (-16) (- (75 # 10)) eq_refl Q1 eq_refl V0 V1) as (N1 & N2 & N3).
  split.
  { apply (proj1 (C3_clamped_from_above_only (of_Z 250) half half game0)).
    vm_compute. discriminate. }
  split.
  { apply (proj1 (proj2 (C3_clamped_from_above_only (of_Z 250) half half launched))).
    reflexivity. }
  split; [ apply (T3 S); reflexivity | ].
  split; [ exact N1 | ].
  split.
  { apply (N2 (600 # 2)).
    - vm_compute. reflexivity.
    - vm_compute. discriminate.
    - vm_compute. discriminate.
    - vm_compute. discriminate. }
  split.
  { apply (N3 _ (400 * (65 # 100))).
    - apply nth_In. vm_compute. lia.
    - vm_compute. reflexivity.
    - vm_compute. discriminate.
    - vm_compute. discriminate. }
  apply (proj2 (proj2 (proj2 (proj2
           (C3_clamped_from_above_only NaN half half launched))))).
  - reflexivity.
  - reflexivity.
Defined.
